(** * The addition dataset of [play_math.ipynb]

    A shallow embedding of the two pieces of logic the notebook authors
    itself: the class [AdditionDataset] (constructor, [__len__],
    [__getitem__]) and the integer decoding done in [give_exam].

    Conventions of the embedding.
    - Python integers are [Z].  The entries of [ixes] are NumPy [int64]
      values and the rows handled by [give_exam] are [torch.long]: a value
      is carried by a [Z], what cannot be stored in 64 bits raises, and
      tensor arithmetic wraps around modulo [2^64] ([wrap64]).
    - [ndigit] is a count of digits and is a [nat].
    - Python exceptions are the type [PyError]; a computation that may
      raise returns a [result].
    - Python floats are IEEE 754 binary64 numbers, modelled by the
      [spec_float] operations of the standard library.
    - [np.random.RandomState(1337).permutation] belongs to NumPy.  It is a
      variable of the section below, together with its contract. *)

From Stdlib Require Import ZArith List Bool Ascii String Lia Permutation.
From Stdlib Require Import Floats.SpecFloat.
Import ListNotations.

Local Open Scope Z_scope.

(** ** Exceptions *)

Inductive PyError : Type :=
| OverflowError
| ValueError
| IndexError
| RuntimeError.

Inductive result (A : Type) : Type :=
| Ok (a : A)
| Raise (e : PyError).

Arguments Ok {A} a.
Arguments Raise {A} e.

Definition bind {A B : Type} (r : result A) (k : A -> result B) : result B :=
  match r with
  | Ok a => k a
  | Raise e => Raise e
  end.

Notation "x <- r ;; k" := (bind r (fun x => k))
  (at level 61, r at next level, right associativity).

(** [[f(s) for s in l]] where [f] may raise: the first exception wins. *)
Fixpoint mapM {A B : Type} (f : A -> result B) (l : list A) : result (list B) :=
  match l with
  | [] => Ok []
  | a :: l' => b <- f a ;; bs <- mapM f l' ;; Ok (b :: bs)
  end.

(** ** Sequences: [len], indexing and slicing *)

Definition len {A : Type} (l : list A) : Z := Z.of_nat (List.length l).

(** How Python places a slice bound [i] in a sequence of length [n]. *)
Definition clamp (n i : Z) : nat :=
  Z.to_nat (if i <? 0 then Z.max (i + n) 0 else Z.min i n).

(** [l[:stop]] *)
Definition slice_to {A : Type} (l : list A) (stop : Z) : list A :=
  firstn (clamp (len l) stop) l.

(** [l[start:]] *)
Definition slice_from {A : Type} (l : list A) (start : Z) : list A :=
  skipn (clamp (len l) start) l.

(** [l[start:stop]] *)
Definition slice {A : Type} (l : list A) (start stop : Z) : list A :=
  let i := clamp (len l) start in
  let j := clamp (len l) stop in
  firstn (j - i) (skipn i l).

(** [l[:stop] = v], the assignment of a scalar to a slice of a tensor. *)
Definition slice_to_fill {A : Type} (l : list A) (stop : Z) (v : A) : list A :=
  let k := clamp (len l) stop in
  repeat v k ++ skipn k l.

(** [l[i]]: negative indices count from the end. *)
Definition index {A : Type} (l : list A) (i : Z) : result A :=
  if (i <? - len l) || (len l <=? i) then Raise IndexError
  else
    match nth_error l (Z.to_nat (if i <? 0 then i + len l else i)) with
    | Some a => Ok a
    | None => Raise IndexError
    end.

(** [range(n)] *)
Definition range (n : Z) : list Z := map Z.of_nat (seq 0 (Z.to_nat n)).

(** ** 64-bit integers: [np.int64] and [torch.long] *)

Definition int64_min : Z := - 2 ^ 63.
Definition int64_max : Z := 2 ^ 63 - 1.

Definition is_int64 (z : Z) : bool := (int64_min <=? z) && (z <=? int64_max).

(** The 64-bit two's complement value that stands for [z]. *)
Definition wrap64 (z : Z) : Z := (z + 2 ^ 63) mod 2 ^ 64 - 2 ^ 63.

(** [a + b] and [a * b] on [torch.long] values. *)
Definition add64 (a b : Z) : Z := wrap64 (a + b).
Definition mul64 (a b : Z) : Z := wrap64 (a * b).

(** [torch.tensor(l)] for a list of Python integers: the tensor is
    [torch.long], and an integer that does not fit raises. *)
Definition tensor (l : list Z) : result (list Z) :=
  if forallb is_int64 l then Ok l else Raise RuntimeError.

(** ** Floats *)

Definition prec : Z := 53.
Definition emax : Z := 1024.

(** The literal [0.2]: the binary64 number nearest to 1/5,
    [0x1.999999999999ap-3]. *)
Definition float_0_2 : spec_float := S754_finite false 7205759403792794 (-55).

(** [float(n)] for an integer [n]: rounded to nearest, ties to even;
    [OverflowError] when the rounded value is not finite.  An integer of
    more than [1024] bits is past every finite float. *)
Definition float_of_int (n : Z) : result spec_float :=
  if emax <? Z.log2 (Z.abs n) + 1 then Raise OverflowError
  else
    match binary_normalize prec emax n 0 false with
    | S754_infinity _ => Raise OverflowError
    | f => Ok f
    end.

(** [n * f] for an integer [n] and a float [f]. *)
Definition mul_int_float (n : Z) (f : spec_float) : result spec_float :=
  x <- float_of_int n ;; Ok (SFmul prec emax x f).

(** [int(f)]: truncation towards zero. *)
Definition int_of_float (f : spec_float) : result Z :=
  match f with
  | S754_zero _ => Ok 0
  | S754_infinity _ => Raise OverflowError
  | S754_nan => Raise ValueError
  | S754_finite s m e =>
      let v := match e with
               | Zneg p => Z.pos m / 2 ^ Z.pos p
               | _ => Z.pos m * 2 ^ e
               end in
      Ok (if s then - v else v)
  end.

(** ** Strings: the [%0wd] conversion and [int] of a character *)

Definition digit_char (d : Z) : ascii := ascii_of_nat (48 + Z.to_nat d).

(** The decimal digits of [n >= 0], most significant first.  [fuel]
    bounds the number of digits. *)
Fixpoint str_digits (fuel : nat) (n : Z) : string :=
  match fuel with
  | O => EmptyString
  | S fuel' =>
      if n <? 10 then String (digit_char n) EmptyString
      else (str_digits fuel' (n / 10) ++ String (digit_char (n mod 10)) EmptyString)%string
  end.

(** [str(n)] for [n >= 0]; a number has no more decimal digits than bits. *)
Definition str_nonneg (n : Z) : string :=
  str_digits (S (Z.to_nat (Z.log2 n))) n.

Fixpoint zeros (k : nat) : string :=
  match k with
  | O => EmptyString
  | S k' => String "0"%char (zeros k')
  end.

(** Left padding with ['0'] up to [w] characters; never truncates. *)
Definition zfill (w : nat) (s : string) : string :=
  (zeros (w - String.length s) ++ s)%string.

(** ['%0wd' % v] *)
Definition format_0d (w : nat) (v : Z) : string :=
  if v <? 0 then String "-"%char (zfill (w - 1) (str_nonneg (- v)))
  else zfill w (str_nonneg v).

(** [int(s)] for a one-character string [s]. *)
Definition int_of_char (c : ascii) : result Z :=
  let n := nat_of_ascii c in
  if ((48 <=? n) && (n <=? 57))%nat then Ok (Z.of_nat n - 48)
  else Raise ValueError.

(** ** [AdditionDataset] *)

Record AdditionDataset : Type := {
  split : string;
  ndigit : nat;
  vocab_size : Z;
  block_size : Z;
  ixes : list Z
}.

(** The encoding step of [__getitem__]: [render] and [dix]. *)
Definition render (nd : nat) (a b c : Z) : string :=
  (format_0d nd a ++ format_0d nd b ++ format_0d (nd + 1) c)%string.

Definition encode (nd : nat) (a b : Z) : result (list Z) :=
  let c := a + b in
  mapM int_of_char (list_ascii_of_string (render nd a b c)).

(** The recovery of [a] and [b] from a problem index: [idx] is an
    [np.int64] and [nd = 10**ndigit] a Python integer.  A value outside the
    64-bit range is no [np.int64], and [idx // nd] raises when [nd] is
    not one either. *)
Definition problem_of_index (nd : nat) (idx : Z) : result (Z * Z) :=
  let n := 10 ^ Z.of_nat nd in
  if negb (is_int64 idx) || negb (is_int64 n) then Raise OverflowError
  else Ok (idx / n, idx mod n).

(** [num_test = min(int(num*0.2), 1000)] *)
Definition num_test (num : Z) : result Z :=
  f <- mul_int_float num float_0_2 ;;
  k <- int_of_float f ;;
  Ok (Z.min k 1000).

Definition AdditionDataset_len (ds : AdditionDataset) : Z := len (ixes ds).

Definition AdditionDataset_getitem (ds : AdditionDataset) (idx : Z)
  : result (list Z * list Z) :=
  idx <- index (ixes ds) idx ;;
  ab <- problem_of_index (ndigit ds) idx ;;
  dix <- encode (ndigit ds) (fst ab) (snd ab) ;;
  let x := slice_to dix (-1) in
  let y := slice_from dix 1 in
  let y := slice_to_fill y (Z.of_nat (ndigit ds) * 2 - 1) (-100) in
  Ok (x, y).

Section Construction.

(** [np.random.RandomState(1337).permutation]: a fixed rearrangement of
    [range(n)], an array of [int64]. *)
Variable permutation : Z -> list Z.

(** [r.permutation(num)]: a [num] beyond the 64-bit range is refused. *)
Definition RandomState_permutation (num : Z) : result (list Z) :=
  if is_int64 num then Ok (permutation num) else Raise ValueError.

Definition AdditionDataset_init (ndigit : nat) (split : string)
  : result AdditionDataset :=
  let num := (10 ^ Z.of_nat ndigit) ^ 2 in
  perm <- RandomState_permutation num ;;
  num_test <- num_test num ;;
  Ok {| split := split;
        ndigit := ndigit;
        vocab_size := 10;
        block_size := Z.of_nat ndigit + Z.of_nat ndigit + Z.of_nat ndigit + 1 - 1;
        ixes := if String.eqb split "test"
                then slice_to perm num_test
                else slice_from perm num_test |}.

End Construction.

(** ** [give_exam]: decoding a row of digits *)

(** [torch.tensor([[10**i for i in range(ndigit+1)][::-1]])] *)
Definition factors (nd : nat) : result (list Z) :=
  tensor (rev (map (fun i => 10 ^ i) (range (Z.of_nat nd + 1)))).

Definition sum (l : list Z) : Z := fold_right Z.add 0 l.

(** The sum of a [torch.long] row; addition modulo [2^64] gives the same
    result in every order. *)
Definition sum64 (l : list Z) : Z := fold_right add64 0 l.

(** [(u * v).sum()] for two [torch.long] rows: the product is elementwise,
    a row of one element is broadcast, rows of other unequal lengths are an
    error; products and sums wrap around. *)
Definition mul_sum (u v : list Z) : result Z :=
  if (List.length u =? List.length v)%nat
  then Ok (sum64 (map (fun p => mul64 (fst p) (snd p)) (combine u v)))
  else match u, v with
       | [a], _ => Ok (sum64 (map (mul64 a) v))
       | _, [b] => Ok (sum64 (map (fun a => mul64 a b) u))
       | _, _ => Raise RuntimeError
       end.

Definition d1i (nd : nat) (d1d2 : list Z) : result Z :=
  f <- factors nd ;;
  mul_sum (slice_to d1d2 (Z.of_nat nd)) (slice_from f 1).

Definition d2i (nd : nat) (d1d2 : list Z) : result Z :=
  f <- factors nd ;;
  mul_sum (slice d1d2 (Z.of_nat nd) (Z.of_nat nd * 2)) (slice_from f 1).

Definition d3i_pred (nd : nat) (d1d2d3 : list Z) : result Z :=
  let d3 := slice_from d1d2d3 (- (Z.of_nat nd + 1)) in
  f <- factors nd ;;
  mul_sum d3 f.

(** The three integers [give_exam] reads from the prompt [x[:ndigit*2]]
    and from a completed row [d1d2d3]. *)
Definition decode (nd : nat) (x d1d2d3 : list Z) : result (Z * Z * Z) :=
  let d1d2 := slice_to x (Z.of_nat nd * 2) in
  a <- d1i nd d1d2 ;;
  b <- d2i nd d1d2 ;;
  c <- d3i_pred nd d1d2d3 ;;
  Ok (a, b, c).

(** ** [give_exam]: the loop over batches *)

(** [DataLoader(dataset, batch_size=batch_size)] with its defaults visits
    the positions [0 .. len(dataset) - 1] in order, [batch_size] at a time;
    the last batch takes what is left. *)
Fixpoint chunk {A : Type} (fuel n : nat) (l : list A) : list (list A) :=
  match fuel with
  | O => []
  | S fuel' =>
      match l with
      | [] => []
      | _ :: _ => firstn n l :: chunk fuel' n (skipn n l)
      end
  end.

Definition batches (n_items batch_size : Z) : list (list Z) :=
  chunk (Z.to_nat n_items) (Z.to_nat batch_size) (range n_items).

(** The default collate stacks the rows of a batch into one tensor; the
    rows must have one length. *)
Definition stack (rows : list (list Z)) : result (list (list Z)) :=
  match rows with
  | [] => Raise RuntimeError
  | r :: rest =>
      if forallb (fun r' => (List.length r' =? List.length r)%nat) rest
      then Ok rows
      else Raise RuntimeError
  end.

(** [u == v] for two 1-D tensors, with the broadcast of a single element. *)
Definition eq_rows (u v : list Z) : result (list bool) :=
  if (List.length u =? List.length v)%nat
  then Ok (map (fun p => fst p =? snd p) (combine u v))
  else match u, v with
       | [a], _ => Ok (map (Z.eqb a) v)
       | _, [b] => Ok (map (fun a => a =? b) u)
       | _, _ => Raise RuntimeError
       end.

Section Exam.

(** [sample(model, x, steps)] of the library, for the trained [model]:
    from a batch of prompts to a batch of completed rows. *)
Variable sample : list (list Z) -> Z -> list (list Z).

(** The body of the loop for one batch [x]: the list of [int(correct[i])]. *)
Definition exam_batch (nd : nat) (x : list (list Z)) : result (list Z) :=
  let d1d2 := map (fun r => slice_to r (Z.of_nat nd * 2)) x in
  let d1d2d3 := sample d1d2 (Z.of_nat nd + 1) in
  d1 <- mapM (d1i nd) d1d2 ;;
  d2 <- mapM (d2i nd) d1d2 ;;
  d3 <- mapM (d3i_pred nd) d1d2d3 ;;
  let d3i_gt := map (fun p => add64 (fst p) (snd p)) (combine d1 d2) in
  correct <- eq_rows d3 d3i_gt ;;
  mapM (fun i => c <- index correct i ;; Ok (if c : bool then 1 else 0))
       (range (len x)).

(** The loop over the batches [bs] of positions, from batch number [b],
    [results] being the list built so far. *)
Fixpoint exam_loop (nd : nat) (dataset : AdditionDataset) (max_batches : Z)
         (bs : list (list Z)) (b : Z) (results : list Z) : result (list Z) :=
  match bs with
  | [] => Ok results
  | idxs :: rest =>
      items <- mapM (AdditionDataset_getitem dataset) idxs ;;
      x <- stack (map fst items) ;;
      y <- stack (map snd items) ;;
      r <- exam_batch nd x ;;
      let results := results ++ r in
      if (max_batches >=? 0) && (b + 1 >=? max_batches) then Ok results
      else exam_loop nd dataset max_batches rest (b + 1) results
  end.

(** [give_exam(dataset, batch_size, max_batches)], with the notebook's
    global [ndigit] as first argument.  The value is the list [results]
    from which the final score is printed. *)
Definition give_exam (nd : nat) (dataset : AdditionDataset)
           (batch_size max_batches : Z) : result (list Z) :=
  if batch_size <=? 0 then Raise ValueError
  else exam_loop nd dataset max_batches
         (batches (AdditionDataset_len dataset) batch_size) 0 [].

End Exam.

(** ** Auxiliary definitions for the statements *)

(** The [k] low-order decimal digits of [n], most significant first. *)
Fixpoint digits (k : nat) (n : Z) : list Z :=
  match k with
  | O => []
  | S k' => digits k' (n / 10) ++ [n mod 10]
  end.

(** [str_digits] read as a list of digit values. *)
Fixpoint dec (fuel : nat) (n : Z) : list Z :=
  match fuel with
  | O => []
  | S fuel' => if n <? 10 then [n] else dec fuel' (n / 10) ++ [n mod 10]
  end.

(** The digit values of [str(n)]. *)
Definition dec_nonneg (n : Z) : list Z := dec (S (Z.to_nat (Z.log2 n))) n.

(** The digit values of ['%0wd' % n] for [n >= 0]. *)
Definition padded (w : nat) (n : Z) : list Z :=
  repeat 0 (w - List.length (dec_nonneg n)) ++ dec_nonneg n.

(** [[10^(k-1); ...; 10; 1]] *)
Fixpoint pows (k : nat) : list Z :=
  match k with
  | O => []
  | S k' => 10 ^ Z.of_nat k' :: pows k'
  end.

Definition dot (u v : list Z) : Z :=
  sum (map (fun p => fst p * snd p) (combine u v)).

Definition is_digit (d : Z) : Prop := 0 <= d <= 9.

(** [fmap] on results. *)
Definition result_map {A B : Type} (f : A -> B) (r : result A) : result B :=
  match r with
  | Ok a => Ok (f a)
  | Raise e => Raise e
  end.

(** The total number of problems, [(10**ndigit)**2]. *)
Definition num_problems (nd : nat) : Z := (10 ^ Z.of_nat nd) ^ 2.

(** Whether [num_test] returns [min(floor(num / 5), 1000)] for [ndigit = nd]. *)
Definition num_test_agrees (nd : nat) : bool :=
  match num_test (num_problems nd) with
  | Ok k => k =? Z.min (num_problems nd / 5) 1000
  | Raise _ => false
  end.

(** A rearrangement to run the constructor on: [range(n)] backwards. *)
Definition rev_permutation (n : Z) : list Z := rev (range n).

(** The operands [a = v // 10^nd] and [b = v % 10^nd] of the problem of
    index [v]. *)
Definition a_of (nd : nat) (v : Z) : Z := v / 10 ^ Z.of_nat nd.
Definition b_of (nd : nat) (v : Z) : Z := v mod 10 ^ Z.of_nat nd.

(** The digits of [a] and [b] for the problem of index [v]: the prompt
    [x[:ndigit*2]] that [give_exam] cuts from an item. *)
Definition prompt_of (nd : nat) (v : Z) : list Z :=
  digits nd (a_of nd v) ++ digits nd (b_of nd v).

(** The input row of the item for the problem of index [v]. *)
Definition x_of (nd : nat) (v : Z) : list Z :=
  let a := a_of nd v in
  let b := b_of nd v in
  digits nd a ++ digits nd b ++ digits nd ((a + b) / 10).

(** The target row of the item for the problem of index [v]. *)
Definition y_of (nd : nat) (v : Z) : list Z :=
  let a := a_of nd v in
  let b := b_of nd v in
  repeat (-100) (2 * nd - 1) ++ digits (S nd) (a + b).

(** The sum [a + b] for the problem of index [v]. *)
Definition sum_of (nd : nat) (v : Z) : Z := a_of nd v + b_of nd v.

(** The integer that the last [nd + 1] entries of a row stand for in
    [torch.long] arithmetic. *)
Definition last_value (nd : nat) (row : list Z) : Z :=
  wrap64 (dot (skipn (List.length row - S nd) row) (pows (S nd))).

(** The entry of [ixes] at position [i >= 0]. *)
Definition value_at (ds : AdditionDataset) (i : Z) : Z :=
  nth (Z.to_nat i) (ixes ds) 0.

(** How many items [give_exam] examines out of [n]. *)
Definition examined (n batch_size max_batches : Z) : Z :=
  if max_batches <? 0 then n
  else Z.min n (batch_size * Z.max max_batches 1).

(** How many batches the loop runs through, out of [n], from batch [b]. *)
Definition taken (max_batches b : Z) (n : nat) : nat :=
  if max_batches <? 0 then n
  else Nat.min n (Z.to_nat (Z.max 1 (max_batches - b))).

(** What one turn of the loop of [give_exam] adds to [results] for the
    batch of positions [idxs]. *)
Definition exam_body (sample : list (list Z) -> Z -> list (list Z))
           (nd : nat) (dataset : AdditionDataset) (idxs : list Z)
  : result (list Z) :=
  items <- mapM (AdditionDataset_getitem dataset) idxs ;;
  x <- stack (map fst items) ;;
  y <- stack (map snd items) ;;
  exam_batch sample nd x.

(** The mark of a completed row [out] for the problem of index [v]. *)
Definition mark (nd : nat) (out : list Z) (v : Z) : Z :=
  if last_value nd out =? sum_of nd v then 1 else 0.

(** A sampler that appends zeros, and one that appends the digits of the
    sum of the two halves of the prompt. *)
Definition zero_sample (rows : list (list Z)) (steps : Z) : list (list Z) :=
  map (fun r => r ++ repeat 0 (Z.to_nat steps)) rows.

Definition adder_sample (rows : list (list Z)) (steps : Z) : list (list Z) :=
  map (fun r =>
         let n := (List.length r / 2)%nat in
         r ++ digits (Z.to_nat steps)
                (dot (firstn n r) (pows n) + dot (skipn n r) (pows n)))
      rows.

(** ** The docstring's examples *)

Example encode_85_50 : encode 2 85 50 = Ok [8; 5; 5; 0; 1; 3; 5].
Proof. reflexivity. Qed.

Example encode_6_39 : encode 2 6 39 = Ok [0; 6; 3; 9; 0; 4; 5].
Proof. reflexivity. Qed.

Example getitem_6_39 :
  AdditionDataset_getitem
    {| split := "train"; ndigit := 2; vocab_size := 10; block_size := 6;
       ixes := [639] |} 0
  = Ok ([0; 6; 3; 9; 0; 4], [-100; -100; -100; 0; 4; 5]).
Proof. reflexivity. Qed.

Example num_test_100 : num_test 100 = Ok 20.
Proof. vm_compute. reflexivity. Qed.

Example num_test_10000 : num_test 10000 = Ok 1000.
Proof. vm_compute. reflexivity. Qed.

Example float_0_2_is_1_div_5 :
  SFdiv prec emax (binary_normalize prec emax 1 0 false)
                  (binary_normalize prec emax 5 0 false) = float_0_2.
Proof. vm_compute. reflexivity. Qed.

(** ** Results, lists and slices *)

Lemma bind_Ok {A B : Type} (r : result A) (k : A -> result B) (b : B) :
  bind r k = Ok b -> exists a, r = Ok a /\ k a = Ok b.
Proof.
  destruct r as [a|e]; simpl; intros H; [eauto | discriminate].
Qed.

Lemma mapM_app {A B : Type} (f : A -> result B) (l1 l2 : list A) (m1 m2 : list B) :
  mapM f l1 = Ok m1 -> mapM f l2 = Ok m2 -> mapM f (l1 ++ l2) = Ok (m1 ++ m2).
Proof.
  revert m1; induction l1 as [|a l1 IH]; simpl; intros m1 H1 H2.
  - injection H1 as <-. exact H2.
  - destruct (f a) as [b|e]; simpl in *; [|discriminate].
    destruct (mapM f l1) as [bs|e]; simpl in *; [|discriminate].
    injection H1 as <-. rewrite (IH bs eq_refl H2). reflexivity.
Qed.

Lemma list_ascii_of_string_app (s1 s2 : string) :
  list_ascii_of_string (s1 ++ s2) =
  list_ascii_of_string s1 ++ list_ascii_of_string s2.
Proof.
  induction s1 as [|c s1 IH]; simpl; [reflexivity | now rewrite IH].
Qed.

Lemma string_length_app (s1 s2 : string) :
  String.length (s1 ++ s2) = (String.length s1 + String.length s2)%nat.
Proof.
  induction s1 as [|c s1 IH]; simpl; [reflexivity | now rewrite IH].
Qed.

Lemma firstn_exact {A : Type} (l1 l2 : list A) (k : nat) :
  List.length l1 = k -> firstn k (l1 ++ l2) = l1.
Proof.
  intros <-. rewrite firstn_app, Nat.sub_diag, firstn_all. simpl.
  apply app_nil_r.
Qed.

Lemma skipn_exact {A : Type} (l1 l2 : list A) (k : nat) :
  List.length l1 = k -> skipn k (l1 ++ l2) = l2.
Proof.
  intros <-. rewrite skipn_app, Nat.sub_diag, skipn_all. reflexivity.
Qed.

Lemma clamp_nonneg (n i : Z) :
  0 <= i -> clamp n i = Z.to_nat (Z.min i n).
Proof.
  intros Hi. unfold clamp. destruct (Z.ltb_spec i 0); [lia | reflexivity].
Qed.

Lemma clamp_neg (n i : Z) :
  i < 0 -> clamp n i = Z.to_nat (Z.max (i + n) 0).
Proof.
  intros Hi. unfold clamp. destruct (Z.ltb_spec i 0); [reflexivity | lia].
Qed.

Lemma clamp_le (n i : Z) : 0 <= n -> (clamp n i <= Z.to_nat n)%nat.
Proof.
  intros Hn. unfold clamp. destruct (Z.ltb_spec i 0); lia.
Qed.

(** ** Decimal digits *)

Arguments int_of_char : simpl never.
Arguments digit_char : simpl never.

Lemma int_of_char_digit (d : Z) :
  is_digit d -> int_of_char (digit_char d) = Ok d.
Proof.
  unfold is_digit. intros Hd.
  assert (H : d = 0 \/ d = 1 \/ d = 2 \/ d = 3 \/ d = 4 \/
              d = 5 \/ d = 6 \/ d = 7 \/ d = 8 \/ d = 9) by lia.
  repeat (destruct H as [-> | H]; [reflexivity|]). subst d. reflexivity.
Qed.

Lemma mod10_digit (n : Z) : is_digit (n mod 10).
Proof.
  unfold is_digit. pose proof (Z.mod_pos_bound n 10). lia.
Qed.

Lemma dec_digits_ok (fuel : nat) (n : Z) :
  0 <= n -> Forall is_digit (dec fuel n).
Proof.
  revert n; induction fuel as [|fuel IH]; simpl; intros n Hn.
  - constructor.
  - destruct (Z.ltb_spec n 10).
    + constructor; [unfold is_digit; lia | constructor].
    + apply Forall_app. split.
      * apply IH. apply Z.div_pos; lia.
      * constructor; [apply mod10_digit | constructor].
Qed.

Lemma parse_str_digits (fuel : nat) (n : Z) :
  0 <= n ->
  mapM int_of_char (list_ascii_of_string (str_digits fuel n)) = Ok (dec fuel n).
Proof.
  revert n; induction fuel as [|fuel IH]; simpl; intros n Hn.
  - reflexivity.
  - destruct (Z.ltb_spec n 10).
    + cbn [list_ascii_of_string mapM].
      rewrite int_of_char_digit by (unfold is_digit; lia). reflexivity.
    + rewrite list_ascii_of_string_app. apply mapM_app.
      * apply IH. apply Z.div_pos; lia.
      * cbn [list_ascii_of_string mapM].
        rewrite int_of_char_digit by apply mod10_digit. reflexivity.
Qed.

Lemma length_str_digits (fuel : nat) (n : Z) :
  String.length (str_digits fuel n) = List.length (dec fuel n).
Proof.
  revert n; induction fuel as [|fuel IH]; simpl; intros n.
  - reflexivity.
  - destruct (Z.ltb_spec n 10); simpl; [reflexivity|].
    rewrite string_length_app, length_app, IH. reflexivity.
Qed.

Lemma parse_zeros (k : nat) :
  mapM int_of_char (list_ascii_of_string (zeros k)) = Ok (repeat 0 k).
Proof.
  induction k as [|k IH]; simpl; [reflexivity|].
  rewrite IH. change (int_of_char "0") with (Ok 0). reflexivity.
Qed.

Lemma parse_format_0d (w : nat) (n : Z) :
  0 <= n ->
  mapM int_of_char (list_ascii_of_string (format_0d w n)) = Ok (padded w n).
Proof.
  intros Hn. unfold format_0d, zfill, padded, str_nonneg, dec_nonneg.
  destruct (Z.ltb_spec n 0); [lia|].
  rewrite list_ascii_of_string_app, length_str_digits.
  apply mapM_app; [apply parse_zeros | now apply parse_str_digits].
Qed.

(** For non-negative operands the encoding never raises. *)
Lemma encode_padded (nd : nat) (a b : Z) :
  0 <= a -> 0 <= b ->
  encode nd a b = Ok (padded nd a ++ padded nd b ++ padded (nd + 1) (a + b)).
Proof.
  intros Ha Hb. unfold encode, render.
  rewrite !list_ascii_of_string_app.
  repeat apply mapM_app; apply parse_format_0d; lia.
Qed.

(** A negative operand puts a sign in [render], which [int] rejects. *)
Lemma encode_negative (nd : nat) (a b : Z) :
  a < 0 -> encode nd a b = Raise ValueError.
Proof.
  intros Ha. unfold encode, render, format_0d.
  destruct (Z.ltb_spec a 0); [|lia]. reflexivity.
Qed.

Lemma length_dec_pos (fuel : nat) (n : Z) :
  (1 <= List.length (dec (S fuel) n))%nat.
Proof.
  simpl. destruct (n <? 10); simpl; [lia|].
  rewrite length_app. simpl. lia.
Qed.

Lemma div10_lt_pow2 (n : Z) (f : nat) :
  0 <= n < 2 ^ Z.of_nat (S f) -> 0 <= n / 10 < 2 ^ Z.of_nat f.
Proof.
  intros [Hn Hlt]. split; [apply Z.div_pos; lia|].
  apply Z.div_lt_upper_bound; [lia|].
  rewrite Nat2Z.inj_succ, Z.pow_succ_r in Hlt by lia. lia.
Qed.

Lemma div10_lt_pow10 (n : Z) (w : nat) :
  0 <= n -> (n / 10 < 10 ^ Z.of_nat w <-> n < 10 ^ Z.of_nat (S w)).
Proof.
  intros Hn. rewrite Nat2Z.inj_succ, Z.pow_succ_r by lia.
  pose proof (Z.div_mod n 10 ltac:(lia)).
  pose proof (Z.mod_pos_bound n 10 ltac:(lia)). lia.
Qed.

(** With enough fuel, [dec] has at most [S w] digits exactly when
    [n < 10^(S w)]. *)
Lemma length_dec_le (f : nat) :
  forall (n : Z) (w : nat),
    0 <= n < 2 ^ Z.of_nat (S f) ->
    (List.length (dec (S f) n) <= S w)%nat <-> n < 10 ^ Z.of_nat (S w).
Proof.
  induction f as [|f IH]; intros n w Hn;
    change (dec (S ?k) n)
      with (if n <? 10 then [n] else dec k (n / 10) ++ [n mod 10]);
    destruct (Z.ltb_spec n 10) as [Hlt | Hge];
    try (change (2 ^ Z.of_nat 1) with 2 in Hn; lia).
  - assert (0 < 10 ^ Z.of_nat w) by (apply Z.pow_pos_nonneg; lia).
    rewrite Nat2Z.inj_succ, Z.pow_succ_r by lia.
    change (List.length [n]) with 1%nat. split; intros; lia.
  - assert (0 < 10 ^ Z.of_nat w) by (apply Z.pow_pos_nonneg; lia).
    rewrite Nat2Z.inj_succ, Z.pow_succ_r by lia.
    change (List.length [n]) with 1%nat. split; intros; lia.
  - rewrite length_app. change (List.length [n mod 10]) with 1%nat.
    pose proof (length_dec_pos f (n / 10)) as Hpos.
    destruct w as [|w].
    + change (10 ^ Z.of_nat 1) with 10. split; intros; lia.
    + rewrite <- (div10_lt_pow10 n (S w)) by lia.
      rewrite <- (IH (n / 10) w) by (apply div10_lt_pow2; exact Hn).
      split; intros; lia.
Qed.

Lemma digits_0 (k : nat) : digits k 0 = repeat 0 k.
Proof.
  induction k as [|k IH]; simpl; [reflexivity|].
  change (0 / 10) with 0. change (0 mod 10) with 0. rewrite IH.
  clear IH. induction k as [|k IH]; simpl; [reflexivity | now rewrite IH].
Qed.

(** Below [10^(S w)], padding [dec] with zeros gives the [S w] digits of [n]. *)
Lemma padded_dec_digits (w : nat) :
  forall (f : nat) (n : Z),
    0 <= n < 2 ^ Z.of_nat (S f) -> n < 10 ^ Z.of_nat (S w) ->
    repeat 0 (S w - List.length (dec (S f) n)) ++ dec (S f) n = digits (S w) n.
Proof.
  induction w as [|w IH]; intros f n Hn Hw.
  - change (10 ^ Z.of_nat 1) with 10 in Hw. simpl.
    destruct (Z.ltb_spec n 10); [|lia]. simpl.
    rewrite Z.mod_small by lia. reflexivity.
  - change (dec (S f) n)
      with (if n <? 10 then [n] else dec f (n / 10) ++ [n mod 10]).
    change (digits (S (S w)) n) with (digits (S w) (n / 10) ++ [n mod 10]).
    destruct (Z.ltb_spec n 10) as [Hlt | Hge].
    + rewrite Z.div_small, Z.mod_small, digits_0 by lia. reflexivity.
    + destruct f as [|f]; [change (2 ^ Z.of_nat 1) with 2 in Hn; lia|].
      rewrite length_app. change (List.length [n mod 10]) with 1%nat.
      rewrite app_assoc. f_equal.
      rewrite <- (IH f (n / 10)).
      * f_equal. f_equal. lia.
      * apply div10_lt_pow2; exact Hn.
      * apply div10_lt_pow10; lia.
Qed.

Lemma log2_fuel (n : Z) :
  0 <= n -> 0 <= n < 2 ^ Z.of_nat (S (Z.to_nat (Z.log2 n))).
Proof.
  intros Hn. split; [exact Hn|].
  rewrite Nat2Z.inj_succ, Z2Nat.id by apply Z.log2_nonneg.
  destruct (Z.eq_dec n 0) as [-> | Hne]; [reflexivity|].
  apply Z.log2_spec. lia.
Qed.

Lemma padded_digits (w : nat) (n : Z) :
  0 <= n < 10 ^ Z.of_nat (S w) -> padded (S w) n = digits (S w) n.
Proof.
  intros [Hn Hw]. unfold padded, dec_nonneg.
  apply padded_dec_digits; [apply log2_fuel; exact Hn | exact Hw].
Qed.

Lemma length_padded (w : nat) (n : Z) :
  List.length (padded w n) = Nat.max w (List.length (dec_nonneg n)).
Proof.
  unfold padded. rewrite length_app, repeat_length. lia.
Qed.

Lemma length_dec_nonneg (n : Z) (w : nat) :
  0 <= n ->
  (List.length (dec_nonneg n) <= S w)%nat <-> n < 10 ^ Z.of_nat (S w).
Proof.
  intros Hn. apply length_dec_le. apply log2_fuel. exact Hn.
Qed.

Lemma length_digits (k : nat) (n : Z) : List.length (digits k n) = k.
Proof.
  revert n; induction k as [|k IH]; intros n; simpl; [reflexivity|].
  rewrite length_app, IH. simpl. lia.
Qed.

Lemma digits_ok (k : nat) (n : Z) : Forall is_digit (digits k n).
Proof.
  revert n; induction k as [|k IH]; intros n; simpl; [constructor|].
  apply Forall_app. split; [apply IH|].
  constructor; [apply mod10_digit | constructor].
Qed.

(** In range, the encoding is the three digit fields. *)
Lemma encode_digits (nd : nat) (a b : Z) :
  (1 <= nd)%nat ->
  0 <= a < 10 ^ Z.of_nat nd -> 0 <= b < 10 ^ Z.of_nat nd ->
  encode nd a b = Ok (digits nd a ++ digits nd b ++ digits (S nd) (a + b)).
Proof.
  intros Hnd Ha Hb. destruct nd as [|w]; [lia|].
  rewrite encode_padded by lia.
  replace (S w + 1)%nat with (S (S w)) by lia.
  rewrite !padded_digits; try reflexivity; try lia.
  rewrite (Nat2Z.inj_succ (S w)), Z.pow_succ_r by lia. lia.
Qed.

(** ** Slices of concatenations *)

Lemma slice_to_app {A : Type} (l1 l2 : list A) (i : Z) :
  i = len l1 -> slice_to (l1 ++ l2) i = l1.
Proof.
  intros ->. unfold slice_to. apply firstn_exact.
  rewrite clamp_nonneg by (unfold len; lia).
  unfold len. rewrite length_app. lia.
Qed.

Lemma slice_from_app {A : Type} (l1 l2 : list A) (i : Z) :
  i = len l1 -> slice_from (l1 ++ l2) i = l2.
Proof.
  intros ->. unfold slice_from. apply skipn_exact.
  rewrite clamp_nonneg by (unfold len; lia).
  unfold len. rewrite length_app. lia.
Qed.

Lemma slice_from_app_neg {A : Type} (l1 l2 : list A) (i : Z) :
  i < 0 -> i = - len l2 -> slice_from (l1 ++ l2) i = l2.
Proof.
  intros Hi ->. unfold slice_from. apply skipn_exact.
  rewrite clamp_neg by exact Hi.
  unfold len. rewrite length_app. lia.
Qed.

Lemma slice_app {A : Type} (l1 l2 l3 : list A) (i j : Z) :
  i = len l1 -> j = len l1 + len l2 -> slice (l1 ++ l2 ++ l3) i j = l2.
Proof.
  intros -> ->. unfold slice.
  rewrite !clamp_nonneg by (unfold len; lia).
  rewrite skipn_exact by (unfold len; rewrite !length_app; lia).
  apply firstn_exact. unfold len. rewrite !length_app. lia.
Qed.

Lemma slice_to_last {A : Type} (l : list A) (x : A) :
  slice_to (l ++ [x]) (-1) = l.
Proof.
  unfold slice_to. apply firstn_exact.
  rewrite clamp_neg by lia. unfold len. rewrite length_app.
  change (List.length [x]) with 1%nat. lia.
Qed.

(** ** Weighted sums *)

Lemma pows_snoc (k : nat) : pows (S k) = map (Z.mul 10) (pows k) ++ [1].
Proof.
  induction k as [|k IH]; [reflexivity|].
  change (pows (S (S k))) with (10 ^ Z.of_nat (S k) :: pows (S k)).
  rewrite IH at 1.
  change (pows (S k)) with (10 ^ Z.of_nat k :: pows k).
  cbn [map app]. rewrite Nat2Z.inj_succ, Z.pow_succ_r by lia.
  reflexivity.
Qed.

Lemma length_pows (k : nat) : List.length (pows k) = k.
Proof.
  induction k as [|k IH]; simpl; [reflexivity | now rewrite IH].
Qed.

Lemma rev_pows (k : nat) :
  rev (map (fun i => 10 ^ i) (map Z.of_nat (seq 0 k))) = pows k.
Proof.
  induction k as [|k IH]; [reflexivity|].
  rewrite seq_S, !map_app, rev_app_distr. simpl. rewrite IH. reflexivity.
Qed.

(** ** 64-bit arithmetic *)

Lemma int64_max_value : int64_max = 9223372036854775807.
Proof. reflexivity. Qed.

Lemma int64_min_value : int64_min = -9223372036854775808.
Proof. reflexivity. Qed.

Lemma is_int64_spec (z : Z) :
  is_int64 z = true <-> int64_min <= z <= int64_max.
Proof.
  unfold is_int64. rewrite andb_true_iff, !Z.leb_le. reflexivity.
Qed.

Lemma wrap64_small (z : Z) : int64_min <= z <= int64_max -> wrap64 z = z.
Proof.
  rewrite int64_min_value, int64_max_value. intros Hz. unfold wrap64.
  change (2 ^ 63) with 9223372036854775808.
  change (2 ^ 64) with 18446744073709551616.
  rewrite Z.mod_small by lia. lia.
Qed.

Lemma wrap64_add (a b : Z) : wrap64 (wrap64 a + wrap64 b) = wrap64 (a + b).
Proof.
  unfold wrap64. f_equal.
  replace ((a + 2 ^ 63) mod 2 ^ 64 - 2 ^ 63 +
           ((b + 2 ^ 63) mod 2 ^ 64 - 2 ^ 63) + 2 ^ 63)
    with ((a + 2 ^ 63) mod 2 ^ 64 + (b + 2 ^ 63) mod 2 ^ 64 + - 2 ^ 63) by lia.
  rewrite <- Z.add_mod_idemp_l, <- Z.add_mod by (vm_compute; discriminate).
  rewrite Z.add_mod_idemp_l by (vm_compute; discriminate).
  f_equal. lia.
Qed.

Lemma wrap64_idem (a : Z) : wrap64 (wrap64 a) = wrap64 a.
Proof.
  unfold wrap64 at 2 3.
  replace ((a + 2 ^ 63) mod 2 ^ 64 - 2 ^ 63 + 2 ^ 63)
    with ((a + 2 ^ 63) mod 2 ^ 64) by lia.
  unfold wrap64. rewrite Z.sub_add, Z.mod_mod by (vm_compute; discriminate).
  reflexivity.
Qed.

(** A [torch.long] sum of products is the exact sum of products, wrapped. *)
Lemma sum64_dot (u v : list Z) :
  sum64 (map (fun p => mul64 (fst p) (snd p)) (combine u v)) = wrap64 (dot u v).
Proof.
  unfold dot, sum, sum64. revert v; induction u as [|a u IH]; intros [|b v];
    try reflexivity.
  cbn [combine map fold_right fst snd]. rewrite IH. unfold add64, mul64.
  apply wrap64_add.
Qed.

Lemma pow10_le_18 (k : nat) : (k <= 18)%nat -> 0 < 10 ^ Z.of_nat k <= 10 ^ 18.
Proof.
  intros Hk. split; [apply Z.pow_pos_nonneg; lia|].
  apply Z.pow_le_mono_r; lia.
Qed.

Lemma pows_int64_table :
  forallb (fun k => forallb is_int64 (pows k)) (seq 0 20) = true.
Proof. vm_compute. reflexivity. Qed.

Lemma pows_int64 (k : nat) : (k <= 19)%nat -> forallb is_int64 (pows k) = true.
Proof.
  intros Hk. pose proof pows_int64_table as H.
  rewrite forallb_forall in H. apply H, in_seq. lia.
Qed.

(** Up to [ndigit = 18] the powers of ten fit [torch.long]; [10^19] does
    not. *)
Lemma factors_pows (nd : nat) : (nd <= 18)%nat -> factors nd = Ok (pows (S nd)).
Proof.
  intros Hnd. unfold factors, range, tensor.
  replace (Z.to_nat (Z.of_nat nd + 1)) with (S nd) by lia.
  rewrite rev_pows, pows_int64 by lia. reflexivity.
Qed.

Lemma factors_overflow (nd : nat) :
  (19 <= nd)%nat -> factors nd = Raise RuntimeError.
Proof.
  intros Hnd. unfold factors, range, tensor.
  replace (Z.to_nat (Z.of_nat nd + 1)) with (S nd) by lia.
  rewrite rev_pows. cbn [pows forallb].
  assert (H : is_int64 (10 ^ Z.of_nat nd) = false).
  { apply not_true_is_false. rewrite is_int64_spec, int64_max_value.
    assert (10 ^ 19 <= 10 ^ Z.of_nat nd) by (apply Z.pow_le_mono_r; lia).
    change (10 ^ 19) with 10000000000000000000 in *. lia. }
  rewrite H. reflexivity.
Qed.

Lemma dot_snoc (u v : list Z) (x y : Z) :
  List.length u = List.length v ->
  dot (u ++ [x]) (v ++ [y]) = dot u v + x * y.
Proof.
  unfold dot, sum. revert v; induction u as [|a u IH]; intros [|b v] Hl;
    try discriminate; simpl in *.
  - lia.
  - rewrite IH by lia. lia.
Qed.

Lemma dot_scale (u v : list Z) (k : Z) :
  dot u (map (Z.mul k) v) = k * dot u v.
Proof.
  unfold dot, sum. revert v; induction u as [|a u IH]; intros [|b v];
    simpl; try lia.
  rewrite IH. lia.
Qed.

(** The weighted sum of the [k] digits of [n] with the powers of ten. *)
Lemma dot_digits (k : nat) :
  forall n, 0 <= n -> dot (digits k n) (pows k) = n mod 10 ^ Z.of_nat k.
Proof.
  induction k as [|k IH]; intros n Hn.
  - simpl. rewrite Z.mod_1_r. reflexivity.
  - change (digits (S k) n) with (digits k (n / 10) ++ [n mod 10]).
    rewrite pows_snoc, dot_snoc by (now rewrite length_map, length_digits, length_pows).
    rewrite dot_scale, IH by (apply Z.div_pos; lia).
    rewrite Nat2Z.inj_succ, Z.pow_succ_r by lia.
    rewrite (Z.rem_mul_r n 10 (10 ^ Z.of_nat k)); [lia | lia |].
    apply Z.pow_pos_nonneg; lia.
Qed.

Lemma mul_sum_dot (u v : list Z) :
  List.length u = List.length v -> mul_sum u v = Ok (wrap64 (dot u v)).
Proof.
  intros H. unfold mul_sum. rewrite H, Nat.eqb_refl, sum64_dot. reflexivity.
Qed.

Lemma mul_sum_digits (k : nat) (n : Z) :
  0 <= n < 10 ^ Z.of_nat k -> n <= int64_max ->
  mul_sum (digits k n) (pows k) = Ok n.
Proof.
  intros Hn Hmax. rewrite mul_sum_dot by (now rewrite length_digits, length_pows).
  rewrite dot_digits, Z.mod_small, wrap64_small by (rewrite ?int64_min_value; lia).
  reflexivity.
Qed.

Lemma slice_from_factors (nd : nat) : slice_from (pows (S nd)) 1 = pows nd.
Proof.
  change (pows (S nd)) with ([10 ^ Z.of_nat nd] ++ pows nd).
  apply slice_from_app. reflexivity.
Qed.

Lemma lt_pow10_int64 (nd : nat) (a : Z) :
  (nd <= 18)%nat -> a < 10 ^ Z.of_nat nd -> a <= int64_max.
Proof.
  intros Hnd Ha. pose proof (pow10_le_18 nd Hnd) as H.
  rewrite int64_max_value. change (10 ^ 18) with 1000000000000000000 in H. lia.
Qed.

Lemma len_digits (k : nat) (n : Z) : len (digits k n) = Z.of_nat k.
Proof.
  unfold len. now rewrite length_digits.
Qed.

(** Decoding a row that starts with the fields of [a] and [b] and a
    completed row that ends with the field of [c]. *)
Lemma decode_fields (nd : nat) (a b c : Z) (rest pre : list Z) :
  (nd <= 18)%nat ->
  0 <= a < 10 ^ Z.of_nat nd -> 0 <= b < 10 ^ Z.of_nat nd ->
  0 <= c < 10 ^ Z.of_nat (S nd) -> c <= int64_max ->
  decode nd (digits nd a ++ digits nd b ++ rest) (pre ++ digits (S nd) c)
  = Ok (a, b, c).
Proof.
  intros Hnd Ha Hb Hc Hmax. unfold decode, d1i, d2i, d3i_pred.
  pose proof (lt_pow10_int64 nd a Hnd (proj2 Ha)) as Hamax.
  pose proof (lt_pow10_int64 nd b Hnd (proj2 Hb)) as Hbmax.
  rewrite factors_pows by exact Hnd. cbn [bind]. rewrite slice_from_factors.
  rewrite app_assoc, (slice_to_app (digits nd a ++ digits nd b))
    by (unfold len; rewrite length_app, !length_digits; lia).
  rewrite slice_to_app by (now rewrite len_digits).
  rewrite mul_sum_digits by assumption. cbn [bind].
  rewrite <- (app_nil_r (digits nd b)) at 1.
  rewrite slice_app by (rewrite !len_digits; lia).
  rewrite mul_sum_digits by assumption. cbn [bind].
  rewrite slice_from_app_neg by (rewrite ?len_digits; lia).
  rewrite mul_sum_digits by assumption. reflexivity.
Qed.

Lemma sum_int64 (nd : nat) (a b : Z) :
  (nd <= 18)%nat -> a < 10 ^ Z.of_nat nd -> b < 10 ^ Z.of_nat nd ->
  a + b <= int64_max.
Proof.
  intros Hnd Ha Hb. pose proof (pow10_le_18 nd Hnd) as H.
  rewrite int64_max_value. change (10 ^ 18) with 1000000000000000000 in H. lia.
Qed.

(** ** The codec *)

Lemma pow10_pos (k : nat) : 0 < 10 ^ Z.of_nat k.
Proof. apply Z.pow_pos_nonneg; lia. Qed.

Lemma sum_lt_pow10 (nd : nat) (a b : Z) :
  0 <= a < 10 ^ Z.of_nat nd -> 0 <= b < 10 ^ Z.of_nat nd ->
  0 <= a + b < 10 ^ Z.of_nat (S nd).
Proof.
  intros Ha Hb. rewrite Nat2Z.inj_succ, Z.pow_succ_r by lia. lia.
Qed.

(** C1, as the code has it: for [ndigit = 19] the tensor of the powers
    of ten cannot be built ([10^19] is no [torch.long]), so decoding the
    encoding of [(5, 0)] raises instead of giving [(5, 0, 5)]. *)
Lemma codec_round_trip_fails_19 :
  0 <= 5 < 10 ^ Z.of_nat 19 /\ 0 <= 0 < 10 ^ Z.of_nat 19 /\
  ~ (exists dix, encode 19 5 0 = Ok dix /\ decode 19 dix dix = Ok (5, 0, 5 + 0)).
Proof.
  split; [split; [lia | reflexivity]|]. split; [split; [lia | reflexivity]|].
  intros [dix [_ H]]. unfold decode, d1i in H.
  rewrite factors_overflow in H by lia. discriminate H.
Qed.

(** C1, amended: for [1 <= ndigit <= 18] and [0 <= a, b < 10^ndigit], the
    encoding of [(a, b)] does not raise, and decoding it as [give_exam]
    does, the first [ndigit] digits, the next [ndigit] digits and the last
    [ndigit + 1] digits each as a weighted sum with the powers of ten in
    [torch.long] arithmetic, gives back [(a, b, a + b)]; the same holds
    when the prompt is read from [x = dix[:-1]], as [give_exam] receives
    it. *)
Theorem codec_round_trip (nd : nat) (a b : Z) :
  (1 <= nd <= 18)%nat ->
  0 <= a < 10 ^ Z.of_nat nd ->
  0 <= b < 10 ^ Z.of_nat nd ->
  exists dix,
    encode nd a b = Ok dix /\
    decode nd dix dix = Ok (a, b, a + b) /\
    decode nd (slice_to dix (-1)) dix = Ok (a, b, a + b).
Proof.
  intros Hnd Ha Hb. pose proof (sum_lt_pow10 nd a b Ha Hb) as Hc.
  pose proof (sum_int64 nd a b ltac:(lia) (proj2 Ha) (proj2 Hb)) as Hmax.
  rewrite encode_digits by (assumption || lia). eexists. split; [reflexivity|].
  pose proof (fun rest =>
    decode_fields nd a b (a + b) rest (digits nd a ++ digits nd b)
      ltac:(lia) Ha Hb Hc Hmax)
    as Hdec.
  rewrite <- app_assoc in Hdec. split; [apply Hdec|].
  change (digits (S nd) (a + b))
    with (digits nd ((a + b) / 10) ++ [(a + b) mod 10]) at 1.
  rewrite 2 app_assoc, slice_to_last, <- app_assoc. apply Hdec.
Qed.

Lemma codec_round_trip_witness :
  exists dix,
    encode 2 6 39 = Ok dix /\
    decode 2 dix dix = Ok (6, 39, 6 + 39) /\
    decode 2 (slice_to dix (-1)) dix = Ok (6, 39, 6 + 39).
Proof.
  apply (codec_round_trip 2 6 39); [lia | | ];
    change (10 ^ Z.of_nat 2) with 100; lia.
Defined.

Lemma problem_of_index_range (nd : nat) (idx : Z) :
  0 <= idx < num_problems nd ->
  0 <= a_of nd idx < 10 ^ Z.of_nat nd /\
  0 <= b_of nd idx < 10 ^ Z.of_nat nd.
Proof.
  unfold num_problems, a_of, b_of.
  pose proof (pow10_pos nd) as Hn. set (n := 10 ^ Z.of_nat nd) in *.
  rewrite Z.pow_2_r. intros Hidx. repeat split.
  - apply Z.div_pos; lia.
  - apply Z.div_lt_upper_bound; lia.
  - apply Z.mod_pos_bound; lia.
  - apply Z.mod_pos_bound; lia.
Qed.

(** On [np.int64] indices and up to [ndigit = 18] the recovery of the
    operands does not raise. *)
Lemma problem_of_index_Ok (nd : nat) (v : Z) :
  (nd <= 18)%nat -> int64_min <= v <= int64_max ->
  problem_of_index nd v = Ok (a_of nd v, b_of nd v).
Proof.
  intros Hnd Hv. unfold problem_of_index.
  apply is_int64_spec in Hv. rewrite Hv.
  assert (H : is_int64 (10 ^ Z.of_nat nd) = true).
  { apply is_int64_spec. pose proof (pow10_le_18 nd Hnd) as H.
    rewrite int64_min_value, int64_max_value.
    change (10 ^ 18) with 1000000000000000000 in H. lia. }
  rewrite H. reflexivity.
Qed.

(** [c = a + b] is an addition of [np.int64] values; it never leaves the
    64-bit range, which is why [encode] adds in [Z]. *)
Lemma operands_sum_int64 (nd : nat) (v : Z) :
  (nd <= 18)%nat -> int64_min <= v <= int64_max ->
  wrap64 (a_of nd v + b_of nd v) = a_of nd v + b_of nd v.
Proof.
  intros Hnd Hv. apply wrap64_small.
  rewrite int64_min_value, int64_max_value in *. unfold a_of, b_of.
  pose proof (pow10_le_18 nd Hnd) as Hn.
  change (10 ^ 18) with 1000000000000000000 in Hn.
  destruct nd as [|nd].
  - change (10 ^ Z.of_nat 0) with 1. rewrite Z.div_1_r, Z.mod_1_r. lia.
  - assert (H10 : 10 <= 10 ^ Z.of_nat (S nd)).
    { change 10 with (10 ^ 1) at 1. apply Z.pow_le_mono_r; lia. }
    set (n := 10 ^ Z.of_nat (S nd)) in *.
    pose proof (Z.div_mod v n ltac:(lia)) as Hdm.
    pose proof (Z.mod_pos_bound v n ltac:(lia)) as Hm.
    set (a := v / n) in *. set (b := v mod n) in *. clearbody a b n.
    destruct (Z.le_gt_cases 0 a) as [Ha | Ha].
    + assert (10 * a <= n * a) by nia. lia.
    + assert (n * (a + 1) <= 10 * (a + 1)) by nia. lia.
Qed.

(** [10^(2*ndigit)] is an [int64] exactly up to [ndigit = 9]. *)
Lemma num_problems_int64 (nd : nat) :
  is_int64 (num_problems nd) = true <-> (nd <= 9)%nat.
Proof.
  rewrite is_int64_spec, int64_min_value, int64_max_value.
  unfold num_problems. rewrite <- Z.pow_mul_r by lia. split.
  - intros [_ H]. destruct (le_lt_dec nd 9) as [Hle | Hgt]; [exact Hle|].
    assert (10 ^ 20 <= 10 ^ (Z.of_nat nd * 2)) by (apply Z.pow_le_mono_r; lia).
    change (10 ^ 20) with 100000000000000000000 in *. lia.
  - intros Hnd.
    assert (0 < 10 ^ (Z.of_nat nd * 2)) by (apply Z.pow_pos_nonneg; lia).
    assert (10 ^ (Z.of_nat nd * 2) <= 10 ^ 18) by (apply Z.pow_le_mono_r; lia).
    change (10 ^ 18) with 1000000000000000000 in *. lia.
Qed.

Lemma problem_index_int64 (nd : nat) (v : Z) :
  (nd <= 9)%nat -> 0 <= v < num_problems nd -> int64_min <= v <= int64_max.
Proof.
  intros Hnd Hv. apply num_problems_int64, is_int64_spec in Hnd.
  rewrite int64_min_value in *. lia.
Qed.

(** C5, as the code has it: for [ndigit = 19] the division
    [idx // 10**ndigit] of an [np.int64] raises, so the index [5] of
    [0 .. 10^38 - 1] is sent to no pair; and already for [ndigit = 10] the
    range [0 .. 10^20 - 1] holds numbers that are no [np.int64], such as
    [2^63], which are sent to no pair either. *)
Lemma index_problem_not_total :
  ~ (forall idx, 0 <= idx < num_problems 19 ->
       exists a b, problem_of_index 19 idx = Ok (a, b)) /\
  ~ (forall idx, 0 <= idx < num_problems 10 ->
       exists a b, problem_of_index 10 idx = Ok (a, b)).
Proof.
  split; intros H.
  - destruct (H 5) as [a [b Hab]]; [split; [lia | reflexivity]|].
    vm_compute in Hab. discriminate Hab.
  - destruct (H (2 ^ 63)) as [a [b Hab]]; [split; [lia | reflexivity]|].
    vm_compute in Hab. discriminate Hab.
Qed.

(** C5, amended: for [ndigit <= 9], where every index of
    [0 .. 10^(2*ndigit) - 1] is an [np.int64],
    [idx |-> (idx // 10^ndigit, idx % 10^ndigit)] sends these indices to
    pairs of numbers below [10^ndigit], is injective on them, and reaches
    every such pair. *)
Theorem index_problem_bijection (nd : nat) :
  (nd <= 9)%nat ->
  (forall idx, 0 <= idx < num_problems nd ->
     exists a b,
       problem_of_index nd idx = Ok (a, b) /\
       0 <= a < 10 ^ Z.of_nat nd /\ 0 <= b < 10 ^ Z.of_nat nd) /\
  (forall i j, 0 <= i < num_problems nd -> 0 <= j < num_problems nd ->
     problem_of_index nd i = problem_of_index nd j -> i = j) /\
  (forall a b, 0 <= a < 10 ^ Z.of_nat nd -> 0 <= b < 10 ^ Z.of_nat nd ->
     exists idx, 0 <= idx < num_problems nd /\ problem_of_index nd idx = Ok (a, b)).
Proof.
  intros Hnd.
  assert (HOk : forall idx, 0 <= idx < num_problems nd ->
                  problem_of_index nd idx = Ok (a_of nd idx, b_of nd idx)).
  { intros idx Hidx. apply problem_of_index_Ok; [lia|].
    now apply (problem_index_int64 nd). }
  split; [|split].
  - intros idx Hidx. exists (a_of nd idx), (b_of nd idx).
    split; [now apply HOk | now apply problem_of_index_range].
  - intros i j Hi Hj H. rewrite !HOk in H by assumption.
    injection H as Hd Hm. unfold a_of, b_of in *.
    pose proof (pow10_pos nd) as Hn.
    rewrite (Z.div_mod i (10 ^ Z.of_nat nd)), (Z.div_mod j (10 ^ Z.of_nat nd))
      by lia.
    congruence.
  - intros a b Ha Hb. pose proof (pow10_pos nd) as Hn.
    set (n := 10 ^ Z.of_nat nd) in *.
    assert (Hidx : 0 <= a * n + b < num_problems nd)
      by (unfold num_problems; fold n; rewrite Z.pow_2_r; nia).
    exists (a * n + b). split; [exact Hidx|].
    rewrite HOk by exact Hidx. unfold a_of, b_of. fold n.
    assert (Hd : (a * n + b) / n = a)
      by (rewrite Z.div_add_l, Z.div_small by lia; lia).
    assert (Hm : (a * n + b) mod n = b)
      by (rewrite Z.add_comm, Z.mod_add, Z.mod_small by lia; reflexivity).
    rewrite Hd, Hm. reflexivity.
Qed.

Lemma index_problem_bijection_witness :
  (exists a b, problem_of_index 2 639 = Ok (a, b) /\
               0 <= a < 10 ^ Z.of_nat 2 /\ 0 <= b < 10 ^ Z.of_nat 2) /\
  exists idx, 0 <= idx < num_problems 2 /\ problem_of_index 2 idx = Ok (85, 50).
Proof.
  destruct (index_problem_bijection 2 ltac:(lia)) as [H1 [_ H3]]. split.
  - apply H1. split; [lia | reflexivity].
  - apply H3; change (10 ^ Z.of_nat 2) with 100; lia.
Defined.

(** C6: for [ndigit >= 1] and [0 <= a, b < 10^ndigit] (the problems that
    index lookup produces), the encoded sequence has exactly
    [3*ndigit + 1] elements and each of them is a digit [0..9]. *)
Theorem encoded_sequence_length (nd : nat) (a b : Z) :
  (1 <= nd)%nat ->
  0 <= a < 10 ^ Z.of_nat nd ->
  0 <= b < 10 ^ Z.of_nat nd ->
  exists dix,
    encode nd a b = Ok dix /\
    len dix = 3 * Z.of_nat nd + 1 /\
    Forall is_digit dix.
Proof.
  intros Hnd Ha Hb. rewrite encode_digits by assumption.
  eexists. split; [reflexivity|]. split.
  - unfold len. rewrite !length_app, !length_digits. lia.
  - apply Forall_app; split; [|apply Forall_app; split]; apply digits_ok.
Qed.

Lemma encoded_sequence_length_witness :
  exists dix,
    encode 2 85 50 = Ok dix /\ len dix = 3 * Z.of_nat 2 + 1 /\ Forall is_digit dix.
Proof.
  apply (encoded_sequence_length 2 85 50); [lia | | ];
    change (10 ^ Z.of_nat 2) with 100; lia.
Defined.

Lemma padded_ok (w : nat) (n : Z) : 0 <= n -> Forall is_digit (padded w n).
Proof.
  intros Hn. unfold padded. apply Forall_app. split.
  - apply Forall_forall. intros d Hd. apply repeat_spec in Hd. subst d.
    unfold is_digit. lia.
  - apply dec_digits_ok. exact Hn.
Qed.

(** C7, as the code has it: [a = 100] is above [10^2 - 1], and the
    encoding of [(100, 0)] for [ndigit = 2] does not fail; it returns a
    sequence of eight digits. *)
Lemma encode_out_of_range_returns :
  ~ ((exists e, encode 2 100 0 = Raise e) <-> (100 > 10 ^ 2 - 1 \/ 0 > 10 ^ 2 - 1)).
Proof.
  intros [_ H]. destruct H as [e He]; [left; reflexivity|].
  discriminate He.
Qed.

(** C7, amended: for [ndigit >= 1] and non-negative [a] and [b] the
    encoding never raises.  It returns digits [0..9]; the sequence has at
    least [3*ndigit + 1] elements, exactly that many if and only if neither
    [a] nor [b] exceeds [10^ndigit - 1], and it is then the concatenation
    of the three zero-padded fields. *)
Theorem encode_never_fails (nd : nat) (a b : Z) :
  (1 <= nd)%nat -> 0 <= a -> 0 <= b ->
  exists dix,
    encode nd a b = Ok dix /\
    Forall is_digit dix /\
    3 * Z.of_nat nd + 1 <= len dix /\
    (len dix = 3 * Z.of_nat nd + 1 <->
       a <= 10 ^ Z.of_nat nd - 1 /\ b <= 10 ^ Z.of_nat nd - 1) /\
    (a <= 10 ^ Z.of_nat nd - 1 -> b <= 10 ^ Z.of_nat nd - 1 ->
       dix = digits nd a ++ digits nd b ++ digits (S nd) (a + b)).
Proof.
  intros Hnd Ha Hb. rewrite encode_padded by assumption.
  eexists. split; [reflexivity|]. split; [|split; [|split]].
  - apply Forall_app; split; [|apply Forall_app; split]; apply padded_ok; lia.
  - unfold len. rewrite !length_app, !length_padded. lia.
  - destruct nd as [|w]; [lia|].
    pose proof (length_dec_nonneg a w Ha) as Hla.
    pose proof (length_dec_nonneg b w Hb) as Hlb.
    pose proof (length_dec_nonneg (a + b) (S w) ltac:(lia)) as Hlc.
    unfold len. rewrite !length_app, !length_padded.
    replace (S w + 1)%nat with (S (S w)) by lia.
    split.
    + intros H.
      assert (Ha' : a < 10 ^ Z.of_nat (S w)) by (apply Hla; lia).
      assert (Hb' : b < 10 ^ Z.of_nat (S w)) by (apply Hlb; lia).
      lia.
    + intros [Ha' Hb'].
      assert (Hc' : a + b < 10 ^ Z.of_nat (S (S w))).
      { apply (sum_lt_pow10 (S w)); lia. }
      apply Hlc in Hc'.
      assert (Ha2 : (List.length (dec_nonneg a) <= S w)%nat) by (apply Hla; lia).
      assert (Hb2 : (List.length (dec_nonneg b) <= S w)%nat) by (apply Hlb; lia).
      lia.
  - intros Ha' Hb'.
    pose proof (encode_digits nd a b Hnd ltac:(lia) ltac:(lia)) as H.
    rewrite encode_padded in H by assumption. injection H as H. exact H.
Qed.

Lemma encode_never_fails_witness :
  exists dix,
    encode 2 100 0 = Ok dix /\
    Forall is_digit dix /\
    3 * Z.of_nat 2 + 1 <= len dix /\
    (len dix = 3 * Z.of_nat 2 + 1 <->
       100 <= 10 ^ Z.of_nat 2 - 1 /\ 0 <= 10 ^ Z.of_nat 2 - 1) /\
    (100 <= 10 ^ Z.of_nat 2 - 1 -> 0 <= 10 ^ Z.of_nat 2 - 1 ->
       dix = digits 2 100 ++ digits 2 0 ++ digits 3 (100 + 0)).
Proof.
  apply (encode_never_fails 2 100 0); lia.
Defined.

(** ** The size of the test split *)

(** Up to [ndigit = 154] the float product is exact enough: checked
    value by value. *)
Lemma num_test_table : forallb num_test_agrees (seq 1 154) = true.
Proof. vm_compute. reflexivity. Qed.

Lemma num_test_exact (nd : nat) :
  (1 <= nd <= 154)%nat ->
  num_test (num_problems nd) = Ok (Z.min (num_problems nd / 5) 1000).
Proof.
  intros Hnd. pose proof num_test_table as H.
  rewrite forallb_forall in H. specialize (H nd).
  unfold num_test_agrees in H.
  destruct (num_test (num_problems nd)) as [k|e].
  - f_equal. apply Z.eqb_eq, H, in_seq. lia.
  - discriminate H. apply in_seq. lia.
Qed.

(** From [ndigit = 155] on, [num] has more than [1024] bits and
    [num*0.2] raises. *)
Lemma num_test_overflow (nd : nat) :
  (155 <= nd)%nat -> num_test (num_problems nd) = Raise OverflowError.
Proof.
  intros Hnd. unfold num_test, mul_int_float, float_of_int.
  assert (Hbig : 2 ^ 1024 <= num_problems nd).
  { unfold num_problems. rewrite <- Z.pow_mul_r by lia.
    apply Z.le_trans with (10 ^ 310).
    - apply Z.leb_le. vm_compute. reflexivity.
    - apply Z.pow_le_mono_r; lia. }
  assert (Hlog : 1024 <= Z.log2 (num_problems nd)).
  { rewrite <- (Z.log2_pow2 1024) by lia. apply Z.log2_le_mono. exact Hbig. }
  assert (Hpos : 0 < 2 ^ 1024) by (apply Z.pow_pos_nonneg; lia).
  rewrite Z.abs_eq by lia. unfold emax.
  destruct (Z.ltb_spec 1024 (Z.log2 (num_problems nd) + 1)); [reflexivity | lia].
Qed.

Lemma num_test_value (nd : nat) (k : Z) :
  (1 <= nd)%nat -> num_test (num_problems nd) = Ok k ->
  k = Z.min (num_problems nd / 5) 1000.
Proof.
  intros Hnd H. destruct (le_lt_dec nd 154) as [Hle | Hgt].
  - rewrite num_test_exact in H by lia. injection H as <-. reflexivity.
  - rewrite num_test_overflow in H by lia. discriminate H.
Qed.

(** The two tests of [float_of_int] agree with rounding: [10^310] rounds
    to infinity, the largest integer of [1024] bits is rejected by the
    second test, and the largest integer that rounds to a finite float is
    accepted. *)
Example float_of_int_155 :
  binary_normalize prec emax (num_problems 155) 0 false = S754_infinity false.
Proof. vm_compute. reflexivity. Qed.

Example float_of_int_edge :
  float_of_int (2 ^ 1024 - 1) = Raise OverflowError /\
  float_of_int (2 ^ 1024 - 2 ^ 970 - 1)
  = Ok (S754_finite false 9007199254740991 971).
Proof. split; vm_compute; reflexivity. Qed.

(** ** [range] and indexing *)

Lemma In_range (n i : Z) : In i (range n) <-> 0 <= i < n.
Proof.
  unfold range. rewrite in_map_iff. split.
  - intros [k [<- Hk]]. apply in_seq in Hk. lia.
  - intros Hi. exists (Z.to_nat i). split; [lia | apply in_seq; lia].
Qed.

Lemma NoDup_range (n : Z) : NoDup (range n).
Proof.
  unfold range. apply Finite.Injective_map_NoDup.
  - intros x y H. lia.
  - apply seq_NoDup.
Qed.

Lemma length_range (n : Z) : List.length (range n) = Z.to_nat n.
Proof.
  unfold range. now rewrite length_map, length_seq.
Qed.

Lemma index_valid {A : Type} (l : list A) (i : Z) :
  - len l <= i < len l -> exists v, index l i = Ok v /\ In v l.
Proof.
  intros Hi. unfold index.
  destruct (Z.ltb_spec i (- len l)); [lia|].
  destruct (Z.leb_spec (len l) i); [lia|]. cbn [orb].
  destruct (nth_error l _) as [v|] eqn:Hnth.
  - exists v. split; [reflexivity|]. eapply nth_error_In, Hnth.
  - apply nth_error_None in Hnth. unfold len in *.
    destruct (Z.ltb_spec i 0); lia.
Qed.

Lemma In_slice_to {A : Type} (l : list A) (k : Z) (v : A) :
  In v (slice_to l k) -> In v l.
Proof.
  unfold slice_to. intros H.
  rewrite <- (firstn_skipn (clamp (len l) k) l). apply in_or_app. now left.
Qed.

Lemma In_slice_from {A : Type} (l : list A) (k : Z) (v : A) :
  In v (slice_from l k) -> In v l.
Proof.
  unfold slice_from. intros H.
  rewrite <- (firstn_skipn (clamp (len l) k) l). apply in_or_app. now right.
Qed.

Lemma slice_to_from {A : Type} (l : list A) (k : Z) :
  slice_to l k ++ slice_from l k = l.
Proof. apply firstn_skipn. Qed.

(** ** One training pair *)

(** [y = l[1:]; y[:k] = v] when [l] starts with [k + 1] elements [pre]. *)
Lemma slice_fill_tail {A : Type} (pre rest : list A) (k : Z) (v : A) :
  0 <= k -> len pre = k + 1 ->
  slice_to_fill (slice_from (pre ++ rest) 1) k v = repeat v (Z.to_nat k) ++ rest.
Proof.
  intros Hk Hpre. unfold slice_to_fill, slice_from, len in *.
  rewrite length_skipn, length_app, !clamp_nonneg by lia.
  replace (Z.to_nat (Z.min k _)) with (Z.to_nat k) by lia.
  f_equal. rewrite skipn_skipn. apply skipn_exact. lia.
Qed.

(** What [__getitem__] returns when the entry of [ixes] it reads is a
    problem index. *)
Lemma getitem_value (ds : AdditionDataset) (idx v : Z) :
  (1 <= ndigit ds <= 9)%nat ->
  index (ixes ds) idx = Ok v ->
  0 <= v < num_problems (ndigit ds) ->
  let nd := ndigit ds in
  let a := a_of nd v in
  let b := b_of nd v in
  problem_of_index nd v = Ok (a, b) /\
  encode nd a b = Ok (digits nd a ++ digits nd b ++ digits (S nd) (a + b)) /\
  AdditionDataset_getitem ds idx =
    Ok (digits nd a ++ digits nd b ++ digits nd ((a + b) / 10),
        repeat (-100) (2 * nd - 1) ++ digits (S nd) (a + b)).
Proof.
  intros Hnd Hidx Hv nd a b. change (1 <= nd <= 9)%nat in Hnd.
  destruct (problem_of_index_range nd v Hv) as [Ha Hb].
  fold a in Ha. fold b in Hb.
  pose proof (encode_digits nd a b ltac:(lia) Ha Hb) as Henc.
  assert (Hab : problem_of_index nd v = Ok (a, b)).
  { apply problem_of_index_Ok; [lia|].
    apply (problem_index_int64 nd); [lia | exact Hv]. }
  split; [exact Hab|]. split; [exact Henc|].
  unfold AdditionDataset_getitem. rewrite Hidx. cbn [bind].
  fold nd. rewrite Hab. cbn [bind fst snd]. rewrite Henc. cbn [bind].
  f_equal. f_equal.
  - change (digits (S nd) (a + b))
      with (digits nd ((a + b) / 10) ++ [(a + b) mod 10]).
    rewrite 2 app_assoc, slice_to_last, <- app_assoc. reflexivity.
  - rewrite app_assoc, (slice_fill_tail (digits nd a ++ digits nd b))
      by (unfold len; rewrite ?length_app, ?length_digits; lia).
    f_equal. f_equal. lia.
Qed.

Lemma NoDup_app_disjoint {A : Type} (l1 l2 : list A) (x : A) :
  NoDup (l1 ++ l2) -> In x l1 -> ~ In x l2.
Proof.
  induction l1 as [|a l1 IH]; simpl; intros Hnd Hin Hin2; [exact Hin|].
  inversion Hnd as [|? ? Hna Hnd']; subst.
  destruct Hin as [-> | Hin].
  - apply Hna, in_or_app. now right.
  - exact (IH Hnd' Hin Hin2).
Qed.

Lemma num_problems_ge (nd : nat) : (1 <= nd)%nat -> 100 <= num_problems nd.
Proof.
  intros Hnd. unfold num_problems. rewrite <- Z.pow_mul_r by lia.
  change 100 with (10 ^ 2). apply Z.pow_le_mono_r; lia.
Qed.

Lemma num_problems_pos (nd : nat) : 0 < num_problems nd.
Proof.
  unfold num_problems. pose proof (pow10_pos nd). nia.
Qed.

(** ** The constructor and the splits *)

Section Dataset.

Variable permutation : Z -> list Z.
Hypothesis permutation_spec :
  forall n, 0 <= n -> Permutation (permutation n) (range n).

Local Abbreviation init := (AdditionDataset_init permutation).

Lemma perm_In (n i : Z) : 0 <= n -> In i (permutation n) <-> 0 <= i < n.
Proof.
  intros Hn. rewrite <- In_range. split; apply Permutation_in.
  - now apply permutation_spec.
  - now apply Permutation_sym, permutation_spec.
Qed.

Lemma perm_NoDup (n : Z) : 0 <= n -> NoDup (permutation n).
Proof.
  intros Hn. eapply Permutation_NoDup; [|apply NoDup_range].
  now apply Permutation_sym, permutation_spec.
Qed.

Lemma perm_len (n : Z) : 0 <= n -> len (permutation n) = n.
Proof.
  intros Hn. unfold len.
  rewrite (Permutation_length (permutation_spec n Hn)), length_range. lia.
Qed.

(** What a successful construction has computed. *)
Lemma init_Ok (nd : nat) (s : string) (ds : AdditionDataset) :
  init nd s = Ok ds ->
  exists k,
    num_test (num_problems nd) = Ok k /\
    ndigit ds = nd /\
    block_size ds = 3 * Z.of_nat nd /\
    ixes ds = if String.eqb s "test"
              then slice_to (permutation (num_problems nd)) k
              else slice_from (permutation (num_problems nd)) k.
Proof.
  unfold AdditionDataset_init, RandomState_permutation.
  fold (num_problems nd). intros H.
  destruct (is_int64 (num_problems nd)); [|discriminate H]. cbn [bind] in H.
  apply bind_Ok in H. destruct H as [k [Hk H]]. injection H as <-.
  exists k. cbn [ndigit block_size ixes]. repeat split; [exact Hk | lia].
Qed.

(** A dataset is built only up to [ndigit = 9]. *)
Lemma init_bound (nd : nat) (s : string) (ds : AdditionDataset) :
  init nd s = Ok ds -> (nd <= 9)%nat.
Proof.
  unfold AdditionDataset_init, RandomState_permutation.
  fold (num_problems nd). intros H. apply num_problems_int64.
  destruct (is_int64 (num_problems nd)); [reflexivity | discriminate H].
Qed.

(** The constructor returns for [ndigit] from [1] to [9]. *)
Lemma init_succeeds (nd : nat) (s : string) :
  (1 <= nd <= 9)%nat -> exists ds, init nd s = Ok ds.
Proof.
  intros Hnd. unfold AdditionDataset_init, RandomState_permutation.
  fold (num_problems nd).
  rewrite (proj2 (num_problems_int64 nd)) by lia. cbn [bind].
  rewrite num_test_exact by lia. cbn [bind]. eexists. reflexivity.
Qed.

(** From [ndigit = 10] on it raises at [r.permutation(num)], before
    [num*0.2] is computed. *)
Lemma init_too_large (nd : nat) (s : string) :
  (10 <= nd)%nat -> init nd s = Raise ValueError.
Proof.
  intros Hnd. unfold AdditionDataset_init, RandomState_permutation.
  fold (num_problems nd).
  destruct (is_int64 (num_problems nd)) eqn:H; [|reflexivity].
  apply num_problems_int64 in H. lia.
Qed.

(** Every entry of [ixes] is a problem index. *)
Lemma init_ixes_range (nd : nat) (s : string) (ds : AdditionDataset) (v : Z) :
  init nd s = Ok ds -> In v (ixes ds) -> 0 <= v < num_problems nd.
Proof.
  intros H Hv. apply init_Ok in H. destruct H as [k [_ [_ [_ Hix]]]].
  rewrite Hix in Hv. pose proof (num_problems_pos nd).
  apply (perm_In (num_problems nd)); [lia|].
  destruct (String.eqb s "test");
    [eapply In_slice_to | eapply In_slice_from]; exact Hv.
Qed.

(** C2: for [ndigit >= 1] the constructor returns both splits (up to
    [ndigit = 9], where [num] is still an [int64] for [r.permutation]), and
    for the two datasets built with ['test'] and ['train'] no index is in
    both, an
    index is in one of them exactly when it is in
    [0 .. 10^(2*ndigit) - 1], and together they list every such index
    once. *)
Theorem split_partition (nd : nat) :
  (1 <= nd)%nat ->
  ((nd <= 9)%nat ->
     exists te tr, init nd "test" = Ok te /\ init nd "train" = Ok tr) /\
  forall te tr,
    init nd "test" = Ok te -> init nd "train" = Ok tr ->
    (forall i, In i (ixes te) -> ~ In i (ixes tr)) /\
    (forall i, In i (ixes te) \/ In i (ixes tr) <-> 0 <= i < num_problems nd) /\
    Permutation (ixes te ++ ixes tr) (range (num_problems nd)).
Proof.
  intros Hnd. split.
  - intros Hle.
    destruct (init_succeeds nd "test" ltac:(lia)) as [te Hte].
    destruct (init_succeeds nd "train" ltac:(lia)) as [tr Htr].
    exists te, tr. split; assumption.
  - intros te tr Hte Htr.
    apply init_Ok in Hte. destruct Hte as [k [Hk [_ [_ Hte]]]].
    apply init_Ok in Htr. destruct Htr as [k' [Hk' [_ [_ Htr]]]].
    rewrite Hk in Hk'. injection Hk' as <-.
    change (String.eqb "test" "test") with true in Hte.
    change (String.eqb "train" "test") with false in Htr.
    pose proof (num_problems_pos nd) as Hpos.
    assert (Happ : ixes te ++ ixes tr = permutation (num_problems nd))
      by (rewrite Hte, Htr; apply slice_to_from).
    split; [|split].
    + intros i. apply NoDup_app_disjoint. rewrite Happ.
      apply perm_NoDup. lia.
    + intros i. rewrite <- in_app_iff, Happ. apply perm_In. lia.
    + rewrite Happ. apply permutation_spec. lia.
Qed.

Lemma test_len (nd : nat) (te : AdditionDataset) :
  (1 <= nd)%nat ->
  init nd "test" = Ok te ->
  AdditionDataset_len te = Z.min (num_problems nd / 5) 1000.
Proof.
  intros Hnd Hte.
  apply init_Ok in Hte. destruct Hte as [k [Hk [_ [_ Hte]]]].
  apply num_test_value in Hk; [|exact Hnd].
  change (String.eqb "test" "test") with true in Hte.
  pose proof (num_problems_ge nd Hnd) as Hge.
  pose proof (perm_len (num_problems nd) ltac:(lia)) as Hlen.
  unfold AdditionDataset_len. rewrite Hte. unfold slice_to.
  unfold len at 1. rewrite length_firstn, Hlen.
  assert (0 <= num_problems nd / 5 <= num_problems nd).
  { split; [apply Z.div_pos; lia|].
    apply Z.div_le_upper_bound; lia. }
  rewrite clamp_nonneg by lia. unfold len in Hlen. lia.
Qed.

(** C3: for [ndigit >= 1] the dataset built with ['test'] (it is built up
    to [ndigit = 9]) has [min(floor(0.2 * 10^(2*ndigit)), 1000)]
    indices: the float product [num*0.2], truncated by [int], is the exact
    floor of [num / 5] whenever it is small enough to matter. *)
Theorem test_set_size (nd : nat) :
  (1 <= nd)%nat ->
  ((nd <= 9)%nat -> exists te, init nd "test" = Ok te) /\
  forall te,
    init nd "test" = Ok te ->
    AdditionDataset_len te = Z.min (num_problems nd / 5) 1000.
Proof.
  intros Hnd. split.
  - intros Hle. apply init_succeeds. lia.
  - intros te Hte. apply test_len; assumption.
Qed.

(** C9: a split string other than ['test'] gives the index list of
    ['train'] (and raises when ['train'] raises); for [ndigit >= 1] that
    list differs from the one of ['test']. *)
Theorem split_other_is_train (nd : nat) (s : string) :
  (1 <= nd)%nat ->
  s <> "test"%string ->
  result_map ixes (init nd s) = result_map ixes (init nd "train") /\
  forall ds te,
    init nd s = Ok ds -> init nd "test" = Ok te -> ixes ds <> ixes te.
Proof.
  intros Hnd Hs. split.
  - unfold AdditionDataset_init.
    destruct (RandomState_permutation _ _) as [perm|e];
      cbn [bind result_map]; [|reflexivity].
    destruct (num_test _) as [k|e]; cbn [bind result_map ixes]; [|reflexivity].
    apply String.eqb_neq in Hs. rewrite Hs.
    change (String.eqb "train" "test") with false. reflexivity.
  - intros ds te Hds Hte Heq.
    pose proof (test_len nd te Hnd Hte) as Hsize.
    pose proof (num_problems_ge nd Hnd) as Hge.
    apply init_Ok in Hds. destruct Hds as [k [Hk [_ [_ Hds]]]].
    apply init_Ok in Hte. destruct Hte as [k' [Hk' [_ [_ Hte]]]].
    rewrite Hk in Hk'. injection Hk' as <-.
    apply String.eqb_neq in Hs. rewrite Hs in Hds.
    change (String.eqb "test" "test") with true in Hte.
    assert (Hpos : 1 <= AdditionDataset_len te).
    { rewrite Hsize.
      assert (20 <= num_problems nd / 5) by (apply Z.div_le_lower_bound; lia).
      lia. }
    unfold AdditionDataset_len, len in Hpos.
    destruct (ixes te) as [|e l] eqn:Hl; [simpl in Hpos; lia|].
    assert (Hin1 : In e (slice_to (permutation (num_problems nd)) k))
      by (rewrite <- Hte; now left).
    assert (Hin2 : In e (slice_from (permutation (num_problems nd)) k))
      by (rewrite <- Hds, Heq; now left).
    revert Hin2.
    apply (NoDup_app_disjoint (slice_to (permutation (num_problems nd)) k));
      [|exact Hin1].
    rewrite slice_to_from. apply perm_NoDup. lia.
Qed.

(** [__getitem__] on a constructed dataset, at a valid index. *)
Lemma getitem_init (nd : nat) (s : string) (ds : AdditionDataset) (idx : Z) :
  (1 <= nd)%nat ->
  init nd s = Ok ds ->
  - AdditionDataset_len ds <= idx < AdditionDataset_len ds ->
  exists v,
    index (ixes ds) idx = Ok v /\
    0 <= v < num_problems nd /\
    let a := a_of nd v in
    let b := b_of nd v in
    encode nd a b = Ok (digits nd a ++ digits nd b ++ digits (S nd) (a + b)) /\
    AdditionDataset_getitem ds idx =
      Ok (digits nd a ++ digits nd b ++ digits nd ((a + b) / 10),
          repeat (-100) (2 * nd - 1) ++ digits (S nd) (a + b)).
Proof.
  intros Hnd Hds Hidx.
  destruct (index_valid (ixes ds) idx Hidx) as [v [Hv Hin]].
  pose proof (init_ixes_range nd s ds v Hds Hin) as Hrange.
  pose proof (init_bound nd s ds Hds) as Hle.
  apply init_Ok in Hds. destruct Hds as [k [_ [Hndigit _]]].
  exists v. split; [exact Hv|]. split; [exact Hrange|].
  pose proof (getitem_value ds idx v) as H. rewrite Hndigit in H.
  apply H; (assumption || lia).
Qed.

(** The operands of a problem index of a constructed dataset. *)
Lemma init_problem (nd : nat) (s : string) (ds : AdditionDataset) (v : Z) :
  init nd s = Ok ds -> 0 <= v < num_problems nd ->
  problem_of_index nd v = Ok (a_of nd v, b_of nd v).
Proof.
  intros Hds Hv. pose proof (init_bound nd s ds Hds) as Hle.
  apply problem_of_index_Ok; [lia|].
  apply (problem_index_int64 nd); assumption.
Qed.

(** C4: for a constructed dataset and a valid index, [__getitem__]
    returns [(x, y)] where [x] is the encoded sequence without its last
    digit, and [y] is the encoded sequence without its first digit in which
    the first [2*ndigit - 1] positions hold [-100]; the positions after
    them keep the digits of the sequence, so none of those is [-100]. *)
Theorem training_pair (nd : nat) (s : string) (ds : AdditionDataset) (idx : Z) :
  (1 <= nd)%nat ->
  init nd s = Ok ds ->
  - AdditionDataset_len ds <= idx < AdditionDataset_len ds ->
  exists v a b dix x y,
    index (ixes ds) idx = Ok v /\
    problem_of_index nd v = Ok (a, b) /\
    encode nd a b = Ok dix /\
    len dix = 3 * Z.of_nat nd + 1 /\
    AdditionDataset_getitem ds idx = Ok (x, y) /\
    x = removelast dix /\
    y = repeat (-100) (2 * nd - 1) ++ skipn (2 * nd - 1) (tl dix) /\
    Forall is_digit (skipn (2 * nd - 1) (tl dix)).
Proof.
  intros Hnd Hds Hidx.
  destruct (getitem_init nd s ds idx Hnd Hds Hidx) as [v [Hv [Hr [Henc Hget]]]].
  pose proof (init_problem nd s ds v Hds Hr) as Hab.
  set (a := a_of nd v) in *.
  set (b := b_of nd v) in *.
  assert (Htl : skipn (2 * nd - 1)
                  (tl (digits nd a ++ digits nd b ++ digits (S nd) (a + b)))
                = digits (S nd) (a + b)).
  { replace (tl (digits nd a ++ digits nd b ++ digits (S nd) (a + b)))
      with (skipn 1 (digits nd a ++ digits nd b ++ digits (S nd) (a + b)))
      by (destruct (digits nd a ++ _); reflexivity).
    rewrite skipn_skipn, app_assoc. apply skipn_exact.
    rewrite length_app, !length_digits. lia. }
  eexists v, a, b, _, _, _.
  split; [exact Hv|]. split; [exact Hab|].
  split; [exact Henc|]. split; [|split; [exact Hget|]].
  - unfold len. rewrite !length_app, !length_digits. lia.
  - rewrite Htl. split; [|split; [reflexivity | apply digits_ok]].
    change (digits (S nd) (a + b))
      with (digits nd ((a + b) / 10) ++ [(a + b) mod 10]).
    replace (digits nd a ++ digits nd b ++
             digits nd ((a + b) / 10) ++ [(a + b) mod 10])
      with ((digits nd a ++ digits nd b ++ digits nd ((a + b) / 10)) ++
            [(a + b) mod 10])
      by (rewrite <- !app_assoc; reflexivity).
    symmetry. apply removelast_last.
Qed.

(** C8: for a constructed dataset and a valid index, the returned [x] and
    [y] both have [block_size] elements, and [block_size] is [3*ndigit],
    one less than the length [3*ndigit + 1] of the encoded sequence. *)
Theorem training_pair_lengths (nd : nat) (s : string) (ds : AdditionDataset) (idx : Z) :
  (1 <= nd)%nat ->
  init nd s = Ok ds ->
  - AdditionDataset_len ds <= idx < AdditionDataset_len ds ->
  exists x y,
    AdditionDataset_getitem ds idx = Ok (x, y) /\
    len x = 3 * Z.of_nat nd /\
    len y = 3 * Z.of_nat nd /\
    block_size ds = 3 * Z.of_nat nd /\
    block_size ds <> 3 * Z.of_nat nd + 1.
Proof.
  intros Hnd Hds Hidx.
  destruct (getitem_init nd s ds idx Hnd Hds Hidx) as [v [_ [_ [_ Hget]]]].
  apply init_Ok in Hds. destruct Hds as [k [_ [_ [Hbs _]]]].
  eexists _, _. split; [exact Hget|]. unfold len.
  rewrite !length_app, repeat_length, !length_digits. lia.
Qed.

(** C10: for a constructed dataset and a valid index, every element of
    [x] is a digit [0..9], hence a token below [vocab_size = 10], and every
    element of [y] is [-100] or a digit [0..9]. *)
Theorem token_range (nd : nat) (s : string) (ds : AdditionDataset) (idx : Z) :
  (1 <= nd)%nat ->
  init nd s = Ok ds ->
  - AdditionDataset_len ds <= idx < AdditionDataset_len ds ->
  exists x y,
    AdditionDataset_getitem ds idx = Ok (x, y) /\
    Forall is_digit x /\
    Forall (fun t => 0 <= t < vocab_size ds) x /\
    Forall (fun t => t = -100 \/ is_digit t) y.
Proof.
  intros Hnd Hds Hidx.
  destruct (getitem_init nd s ds idx Hnd Hds Hidx) as [v [_ [_ [_ Hget]]]].
  assert (Hvs : vocab_size ds = 10).
  { unfold AdditionDataset_init in Hds. apply bind_Ok in Hds.
    destruct Hds as [perm [_ Hds]]. apply bind_Ok in Hds.
    destruct Hds as [k [_ Hds]]. injection Hds as <-. reflexivity. }
  eexists _, _. split; [exact Hget|].
  assert (Hx : Forall is_digit
                 (digits nd (a_of nd v) ++
                  digits nd (b_of nd v) ++
                  digits nd ((a_of nd v + b_of nd v) / 10))).
  { apply Forall_app; split; [|apply Forall_app; split]; apply digits_ok. }
  split; [exact Hx|]. split.
  - rewrite Hvs. revert Hx. apply Forall_impl. unfold is_digit. intros; lia.
  - apply Forall_app. split.
    + apply Forall_forall. intros t Ht. apply repeat_spec in Ht. now left.
    + eapply Forall_impl; [|apply digits_ok]. intros t Ht. now right.
Qed.

End Dataset.

(** ** The constructor run on a concrete rearrangement *)

Lemma rev_permutation_spec (n : Z) :
  0 <= n -> Permutation (rev_permutation n) (range n).
Proof.
  intros _. apply Permutation_sym, Permutation_rev.
Qed.

Example init_ndigit_10 :
  AdditionDataset_init rev_permutation 10 "test" = Raise ValueError.
Proof. apply init_too_large. lia. Qed.

Lemma split_partition_witness :
  exists te tr,
    AdditionDataset_init rev_permutation 1 "test" = Ok te /\
    AdditionDataset_init rev_permutation 1 "train" = Ok tr /\
    (forall i, In i (ixes te) -> ~ In i (ixes tr)) /\
    (forall i, In i (ixes te) \/ In i (ixes tr) <-> 0 <= i < num_problems 1) /\
    Permutation (ixes te ++ ixes tr) (range (num_problems 1)).
Proof.
  destruct (split_partition rev_permutation rev_permutation_spec 1 ltac:(lia))
    as [Hex Hall].
  destruct (Hex ltac:(lia)) as [te [tr [Hte Htr]]].
  exists te, tr. split; [exact Hte|]. split; [exact Htr|].
  apply Hall; assumption.
Defined.

Lemma test_set_size_witness :
  exists te,
    AdditionDataset_init rev_permutation 1 "test" = Ok te /\
    AdditionDataset_len te = Z.min (num_problems 1 / 5) 1000.
Proof.
  destruct (test_set_size rev_permutation rev_permutation_spec 1 ltac:(lia))
    as [Hex Hall].
  destruct (Hex ltac:(lia)) as [te Hte].
  exists te. split; [exact Hte | apply Hall; exact Hte].
Defined.

Lemma split_other_is_train_witness :
  result_map ixes (AdditionDataset_init rev_permutation 1 "Test") =
  result_map ixes (AdditionDataset_init rev_permutation 1 "train") /\
  forall ds te,
    AdditionDataset_init rev_permutation 1 "Test" = Ok ds ->
    AdditionDataset_init rev_permutation 1 "test" = Ok te ->
    ixes ds <> ixes te.
Proof.
  apply (split_other_is_train rev_permutation rev_permutation_spec 1 "Test");
    [lia | discriminate].
Defined.

Lemma training_pair_witness :
  exists ds,
    AdditionDataset_init rev_permutation 1 "train" = Ok ds /\
    exists v a b dix x y,
      index (ixes ds) 0 = Ok v /\
      problem_of_index 1 v = Ok (a, b) /\
      encode 1 a b = Ok dix /\
      len dix = 3 * Z.of_nat 1 + 1 /\
      AdditionDataset_getitem ds 0 = Ok (x, y) /\
      x = removelast dix /\
      y = repeat (-100) (2 * 1 - 1) ++ skipn (2 * 1 - 1) (tl dix) /\
      Forall is_digit (skipn (2 * 1 - 1) (tl dix)).
Proof.
  eexists. split; [vm_compute; reflexivity|].
  apply (training_pair rev_permutation rev_permutation_spec 1 "train");
    [lia | vm_compute; reflexivity | unfold AdditionDataset_len, len; cbn; lia].
Defined.

Lemma training_pair_lengths_witness :
  exists ds,
    AdditionDataset_init rev_permutation 1 "test" = Ok ds /\
    exists x y,
      AdditionDataset_getitem ds (-1) = Ok (x, y) /\
      len x = 3 * Z.of_nat 1 /\
      len y = 3 * Z.of_nat 1 /\
      block_size ds = 3 * Z.of_nat 1 /\
      block_size ds <> 3 * Z.of_nat 1 + 1.
Proof.
  eexists. split; [vm_compute; reflexivity|].
  apply (training_pair_lengths rev_permutation rev_permutation_spec 1 "test");
    [lia | vm_compute; reflexivity | unfold AdditionDataset_len, len; cbn; lia].
Defined.

Lemma token_range_witness :
  exists ds,
    AdditionDataset_init rev_permutation 1 "train" = Ok ds /\
    exists x y,
      AdditionDataset_getitem ds 79 = Ok (x, y) /\
      Forall is_digit x /\
      Forall (fun t => 0 <= t < vocab_size ds) x /\
      Forall (fun t => t = -100 \/ is_digit t) y.
Proof.
  eexists. split; [vm_compute; reflexivity|].
  apply (token_range rev_permutation rev_permutation_spec 1 "train");
    [lia | vm_compute; reflexivity | unfold AdditionDataset_len, len; cbn; lia].
Defined.

(** ** More on the encoding step *)

Lemma mapM_app_raise {A B : Type} (f : A -> result B) (l1 l2 : list A)
      (m1 : list B) (e : PyError) :
  mapM f l1 = Ok m1 -> mapM f l2 = Raise e -> mapM f (l1 ++ l2) = Raise e.
Proof.
  revert m1; induction l1 as [|a l1 IH]; simpl; intros m1 H1 H2.
  - exact H2.
  - destruct (f a) as [b|e']; simpl in *; [|discriminate].
    destruct (mapM f l1) as [bs|e']; simpl in *; [|discriminate].
    rewrite (IH bs eq_refl H2). reflexivity.
Qed.

Lemma parse_format_0d_negative (w : nat) (v : Z) (s : string) :
  v < 0 ->
  mapM int_of_char (list_ascii_of_string (format_0d w v ++ s)) = Raise ValueError.
Proof.
  intros Hv. unfold format_0d. destruct (Z.ltb_spec v 0); [|lia].
  cbn [append list_ascii_of_string mapM].
  change (int_of_char "-") with (@Raise Z ValueError). reflexivity.
Qed.

(** X1: the encoding step raises [ValueError] exactly when [a] or [b] is
    negative (the sign that [%0Nd] writes is not a digit for [int]), and
    returns a sequence exactly when both are non-negative; no other
    exception leaves it. *)
Theorem encode_raises_iff_negative (nd : nat) (a b : Z) :
  (encode nd a b = Raise ValueError <-> a < 0 \/ b < 0) /\
  ((exists dix, encode nd a b = Ok dix) <-> 0 <= a /\ 0 <= b) /\
  (forall e, encode nd a b = Raise e -> e = ValueError).
Proof.
  assert (Hneg : a < 0 \/ b < 0 -> encode nd a b = Raise ValueError).
  { intros [Ha | Hb].
    - unfold encode, render. apply parse_format_0d_negative. exact Ha.
    - destruct (Z.lt_ge_cases a 0) as [Ha | Ha].
      + unfold encode, render. apply parse_format_0d_negative. exact Ha.
      + unfold encode, render. rewrite list_ascii_of_string_app.
        eapply mapM_app_raise; [apply parse_format_0d; exact Ha|].
        apply parse_format_0d_negative. exact Hb. }
  assert (Hpos : 0 <= a /\ 0 <= b -> exists dix, encode nd a b = Ok dix).
  { intros [Ha Hb]. rewrite encode_padded by assumption. eexists. reflexivity. }
  destruct (Z.lt_ge_cases a 0) as [Ha | Ha];
    [|destruct (Z.lt_ge_cases b 0) as [Hb | Hb]].
  - pose proof (Hneg (or_introl Ha)) as H. rewrite H.
    split; [|split].
    + split; [intros _; now left | reflexivity].
    + split; [intros [dix Hd]; discriminate | lia].
    + intros e He. now injection He as <-.
  - pose proof (Hneg (or_intror Hb)) as H. rewrite H.
    split; [|split].
    + split; [intros _; now right | reflexivity].
    + split; [intros [dix Hd]; discriminate | lia].
    + intros e He. now injection He as <-.
  - destruct (Hpos (conj Ha Hb)) as [dix H]. rewrite H.
    split; [|split].
    + split; [discriminate | lia].
    + split; [lia | intros _; now exists dix].
    + intros e He. discriminate He.
Qed.

Lemma app_eq_length {A : Type} (l1 l1' r r' : list A) :
  List.length l1 = List.length l1' -> l1 ++ r = l1' ++ r' -> l1 = l1' /\ r = r'.
Proof.
  revert l1'; induction l1 as [|x l1 IH]; intros [|x' l1'] Hl H;
    try discriminate; [now split|].
  cbn [app] in H. injection H as -> H. cbn [List.length] in Hl.
  destruct (IH l1' ltac:(lia) H) as [-> ->]. now split.
Qed.

Lemma digits_inj (k : nat) (a a' : Z) :
  0 <= a < 10 ^ Z.of_nat k -> 0 <= a' < 10 ^ Z.of_nat k ->
  digits k a = digits k a' -> a = a'.
Proof.
  intros Ha Ha' H.
  rewrite <- (Z.mod_small a (10 ^ Z.of_nat k)), <- (Z.mod_small a' (10 ^ Z.of_nat k))
    by assumption.
  rewrite <- !dot_digits by lia. now rewrite H.
Qed.

(** X2: for [ndigit >= 1], two pairs of operands below [10^ndigit] with
    the same encoded sequence are the same pair. *)
Theorem encode_injective (nd : nat) (a b a' b' : Z) :
  (1 <= nd)%nat ->
  0 <= a < 10 ^ Z.of_nat nd -> 0 <= b < 10 ^ Z.of_nat nd ->
  0 <= a' < 10 ^ Z.of_nat nd -> 0 <= b' < 10 ^ Z.of_nat nd ->
  encode nd a b = encode nd a' b' ->
  a = a' /\ b = b'.
Proof.
  intros Hnd Ha Hb Ha' Hb' H0.
  assert (H : digits nd a ++ digits nd b ++ digits (S nd) (a + b) =
              digits nd a' ++ digits nd b' ++ digits (S nd) (a' + b'))
    by (rewrite !encode_digits in H0 by assumption; congruence).
  apply app_eq_length in H; [|now rewrite !length_digits].
  destruct H as [H1 H].
  apply app_eq_length in H; [|now rewrite !length_digits].
  destruct H as [H2 _].
  split; eapply digits_inj; eassumption.
Qed.

Lemma encode_injective_witness : 85 = 85 /\ 50 = 50.
Proof.
  apply (encode_injective 2 85 50 85 50);
    try reflexivity; try (change (10 ^ Z.of_nat 2) with 100); lia.
Defined.






(** ** Reading digits back *)

(** A row of [k] digits is the row of digits of its weighted sum. *)
Lemma digits_dot (k : nat) :
  forall l, List.length l = k -> Forall is_digit l ->
    0 <= dot l (pows k) < 10 ^ Z.of_nat k /\ digits k (dot l (pows k)) = l.
Proof.
  induction k as [|k IH]; intros l Hl Hd.
  - destruct l; [|discriminate]. split; [cbv; split; congruence | reflexivity].
  - destruct (exists_last (l:=l)) as [l' [d ->]];
      [intros ->; discriminate|].
    rewrite length_app in Hl. change (List.length [d]) with 1%nat in Hl.
    apply Forall_app in Hd. destruct Hd as [Hd' Hd].
    inversion Hd as [|? ? Hdd _]; subst. unfold is_digit in Hdd.
    destruct (IH l' ltac:(lia) Hd') as [Hr He].
    rewrite pows_snoc, dot_snoc by (rewrite length_map, length_pows; lia).
    rewrite dot_scale. set (m := dot l' (pows k)) in *.
    rewrite Nat2Z.inj_succ, Z.pow_succ_r by lia.
    split; [lia|].
    change (digits (S k) (10 * m + d * 1))
      with (digits k ((10 * m + d * 1) / 10) ++ [(10 * m + d * 1) mod 10]).
    replace ((10 * m + d * 1) / 10) with m
      by (apply (Z.div_unique _ 10 m d); lia).
    replace ((10 * m + d * 1) mod 10) with d
      by (apply (Z.mod_unique _ 10 m d); lia).
    rewrite He. reflexivity.
Qed.

Lemma d3i_pred_dot (nd : nat) (pre d3 : list Z) :
  (nd <= 18)%nat ->
  List.length d3 = S nd ->
  d3i_pred nd (pre ++ d3) = Ok (wrap64 (dot d3 (pows (S nd)))).
Proof.
  intros Hnd Hl. unfold d3i_pred.
  rewrite slice_from_app_neg by (unfold len; lia).
  rewrite factors_pows by exact Hnd. cbn [bind].
  apply mul_sum_dot. now rewrite length_pows.
Qed.

(** With [ndigit = 18] the nineteen digits of a completed row can stand
    for more than [2^63 - 1], and the [torch.long] sum wraps around. *)
Example d3i_pred_wraps_18 :
  d3i_pred 18 (repeat 9 19) = Ok (-8446744073709551617).
Proof. vm_compute. reflexivity. Qed.

(** X4: in [give_exam] with [ndigit <= 17], when the last [ndigit + 1]
    entries of a completed row are digits, the integer read from them is
    some [c] with [0 <= c < 10^(ndigit+1)], and it equals a given [c]
    exactly when those entries are the zero-padded digits of [c]:
    comparing integers is comparing digit for digit. *)
Theorem d3i_pred_exact (nd : nat) (pre d3 : list Z) (c : Z) :
  (nd <= 17)%nat ->
  List.length d3 = S nd ->
  Forall is_digit d3 ->
  (exists c', d3i_pred nd (pre ++ d3) = Ok c' /\ 0 <= c' < 10 ^ Z.of_nat (S nd)) /\
  (d3i_pred nd (pre ++ d3) = Ok c <->
     d3 = digits (S nd) c /\ 0 <= c < 10 ^ Z.of_nat (S nd)).
Proof.
  intros Hnd Hl Hd. rewrite d3i_pred_dot by (lia || exact Hl).
  destruct (digits_dot (S nd) d3 Hl Hd) as [Hr He].
  pose proof (lt_pow10_int64 (S nd) _ ltac:(lia) (proj2 Hr)) as Hmax.
  rewrite wrap64_small by (rewrite int64_min_value; lia). split.
  - eexists. split; [reflexivity | exact Hr].
  - split.
    + intros H. injection H as <-. split; [symmetry; exact He | exact Hr].
    + intros [-> Hc]. rewrite dot_digits, Z.mod_small by lia. reflexivity.
Qed.

Lemma d3i_pred_exact_witness :
  (exists c', d3i_pred 2 ([0; 6; 3; 9] ++ [0; 4; 5]) = Ok c' /\
              0 <= c' < 10 ^ Z.of_nat 3) /\
  (d3i_pred 2 ([0; 6; 3; 9] ++ [0; 4; 5]) = Ok 45 <->
     [0; 4; 5] = digits 3 45 /\ 0 <= 45 < 10 ^ Z.of_nat 3).
Proof.
  apply (d3i_pred_exact 2 [0; 6; 3; 9] [0; 4; 5] 45); [lia | reflexivity|].
  repeat constructor; unfold is_digit; lia.
Defined.

(** ** More on indexing and on the items of a split *)

Lemma index_out_of_range {A : Type} (l : list A) (i : Z) :
  i < - len l \/ len l <= i -> index l i = Raise IndexError.
Proof.
  intros Hi. unfold index.
  destruct (Z.ltb_spec i (- len l)); [reflexivity|].
  destruct (Z.leb_spec (len l) i); [reflexivity | lia].
Qed.

Lemma index_Ok_valid {A : Type} (l : list A) (i : Z) (v : A) :
  index l i = Ok v -> - len l <= i < len l.
Proof.
  intros H. destruct (Z.lt_ge_cases i (- len l)) as [Hlo | Hlo];
    [rewrite index_out_of_range in H by lia; discriminate|].
  destruct (Z.lt_ge_cases i (len l)) as [Hhi | Hhi]; [lia|].
  rewrite index_out_of_range in H by lia. discriminate.
Qed.

Lemma index_negative {A : Type} (l : list A) (i : Z) :
  - len l <= i < 0 -> index l i = index l (i + len l).
Proof.
  intros Hi. unfold index.
  destruct (Z.ltb_spec i (- len l)); [lia|].
  destruct (Z.leb_spec (len l) i); [lia|].
  destruct (Z.ltb_spec (i + len l) (- len l)); [unfold len in *; lia|].
  destruct (Z.leb_spec (len l) (i + len l)); [lia|].
  destruct (Z.ltb_spec i 0); [|lia].
  destruct (Z.ltb_spec (i + len l) 0); [lia|]. reflexivity.
Qed.

Lemma index_nth_error {A : Type} (l : list A) (i : Z) (v : A) :
  0 <= i -> index l i = Ok v -> nth_error l (Z.to_nat i) = Some v.
Proof.
  intros Hi H. unfold index in H.
  destruct ((i <? - len l) || (len l <=? i)); [discriminate|].
  destruct (Z.ltb_spec i 0); [lia|].
  destruct (nth_error l (Z.to_nat i)); [|discriminate].
  now injection H as <-.
Qed.

Lemma problem_of_index_inj (nd : nat) (i j : Z) :
  a_of nd i = a_of nd j -> b_of nd i = b_of nd j -> i = j.
Proof.
  unfold a_of, b_of. pose proof (pow10_pos nd) as Hn. intros Hd Hm.
  rewrite (Z.div_mod i (10 ^ Z.of_nat nd)), (Z.div_mod j (10 ^ Z.of_nat nd)) by lia.
  congruence.
Qed.

Lemma prompt_of_inj (nd : nat) (v v' : Z) :
  0 <= v < num_problems nd -> 0 <= v' < num_problems nd ->
  prompt_of nd v = prompt_of nd v' -> v = v'.
Proof.
  intros Hv Hv' H. unfold prompt_of in H.
  destruct (problem_of_index_range nd v Hv) as [Ha Hb].
  destruct (problem_of_index_range nd v' Hv') as [Ha' Hb'].
  apply app_eq_length in H; [|now rewrite !length_digits].
  destruct H as [H1 H2].
  apply (problem_of_index_inj nd); eapply digits_inj; eassumption.
Qed.

Section Splits.

Variable permutation : Z -> list Z.
Hypothesis permutation_spec :
  forall n, 0 <= n -> Permutation (permutation n) (range n).

Local Abbreviation init := (AdditionDataset_init permutation).

Lemma init_NoDup (nd : nat) (s : string) (ds : AdditionDataset) :
  init nd s = Ok ds -> NoDup (ixes ds).
Proof.
  intros H. apply (init_Ok permutation) in H. destruct H as [k [_ [_ [_ Hix]]]].
  pose proof (num_problems_pos nd) as Hpos.
  pose proof (perm_NoDup permutation permutation_spec (num_problems nd) ltac:(lia))
    as Hnd.
  rewrite <- (slice_to_from (permutation (num_problems nd)) k) in Hnd.
  rewrite Hix. destruct (String.eqb s "test").
  - eapply NoDup_app_remove_r, Hnd.
  - eapply NoDup_app_remove_l, Hnd.
Qed.

(** What an item returned by [__getitem__] is made of. *)
Lemma getitem_Ok (nd : nat) (s : string) (ds : AdditionDataset) (idx : Z)
      (x y : list Z) :
  (1 <= nd)%nat ->
  init nd s = Ok ds ->
  AdditionDataset_getitem ds idx = Ok (x, y) ->
  exists v,
    index (ixes ds) idx = Ok v /\
    In v (ixes ds) /\
    0 <= v < num_problems nd /\
    slice_to x (Z.of_nat nd * 2) = prompt_of nd v /\
    problem_of_index nd v = Ok (a_of nd v, b_of nd v) /\
    decode nd x y = Ok (a_of nd v, b_of nd v, a_of nd v + b_of nd v).
Proof.
  intros Hnd Hds Hget.
  assert (Hidx : - AdditionDataset_len ds <= idx < AdditionDataset_len ds).
  { unfold AdditionDataset_getitem in Hget. apply bind_Ok in Hget.
    destruct Hget as [v [Hv _]]. apply index_Ok_valid in Hv. exact Hv. }
  destruct (getitem_init permutation permutation_spec nd s ds idx Hnd Hds Hidx)
    as [v [Hv [Hr [_ Hget']]]].
  pose proof (init_bound permutation nd s ds Hds) as Hle.
  pose proof (init_problem permutation nd s ds v Hds Hr) as Hab.
  rewrite Hget' in Hget.
  assert (Hx : x = digits nd (a_of nd v) ++ digits nd (b_of nd v) ++
                   digits nd ((a_of nd v + b_of nd v) / 10)) by congruence.
  assert (Hy : y = repeat (-100) (2 * nd - 1) ++
                   digits (S nd) (a_of nd v + b_of nd v)) by congruence.
  subst x y. clear Hget Hget'.
  destruct (index_valid (ixes ds) idx Hidx) as [v' [Hv' Hin]].
  rewrite Hv in Hv'. injection Hv' as <-.
  destruct (problem_of_index_range nd v Hr) as [Ha Hb].
  exists v. split; [exact Hv|]. split; [exact Hin|]. split; [exact Hr|].
  split; [|split; [exact Hab|]].
  - unfold prompt_of. rewrite app_assoc. apply slice_to_app.
    unfold len. rewrite length_app, !length_digits. lia.
  - apply decode_fields; try assumption; try lia.
    + apply sum_lt_pow10; assumption.
    + apply (sum_int64 nd); [lia | apply Ha | apply Hb].
Qed.

(** X5: on a constructed dataset, [__getitem__] returns a pair exactly
    for the indices [-len <= idx < len], raises [IndexError] for every other
    index, and a negative index [idx] gives the item of [idx + len]. *)
Theorem getitem_index_error (nd : nat) (s : string) (ds : AdditionDataset) (idx : Z) :
  (1 <= nd)%nat ->
  init nd s = Ok ds ->
  ((exists xy, AdditionDataset_getitem ds idx = Ok xy) <->
     - AdditionDataset_len ds <= idx < AdditionDataset_len ds) /\
  (idx < - AdditionDataset_len ds \/ AdditionDataset_len ds <= idx ->
     AdditionDataset_getitem ds idx = Raise IndexError) /\
  (- AdditionDataset_len ds <= idx < 0 ->
     AdditionDataset_getitem ds idx =
     AdditionDataset_getitem ds (idx + AdditionDataset_len ds)).
Proof.
  intros Hnd Hds. split; [|split].
  - split.
    + intros [xy H]. unfold AdditionDataset_getitem in H. apply bind_Ok in H.
      destruct H as [v [Hv _]]. apply index_Ok_valid in Hv. exact Hv.
    + intros Hidx.
      destruct (getitem_init permutation permutation_spec nd s ds idx Hnd Hds Hidx)
        as [v [_ [_ [_ H]]]].
      eexists. exact H.
  - intros Hidx. unfold AdditionDataset_getitem.
    rewrite index_out_of_range by exact Hidx. reflexivity.
  - intros Hidx. unfold AdditionDataset_getitem, AdditionDataset_len.
    rewrite index_negative by exact Hidx. reflexivity.
Qed.

(** X6: the constructor keeps [ixes] free of repetitions and inside
    [0 .. 10^(2*ndigit) - 1], so a split never holds more indices than
    there are problems. *)
Theorem ixes_invariant (nd : nat) (s : string) (ds : AdditionDataset) :
  init nd s = Ok ds ->
  NoDup (ixes ds) /\
  Forall (fun v => 0 <= v < num_problems nd) (ixes ds) /\
  AdditionDataset_len ds <= num_problems nd.
Proof.
  intros Hds. pose proof (init_NoDup nd s ds Hds) as Hnd.
  assert (Hr : Forall (fun v => 0 <= v < num_problems nd) (ixes ds)).
  { apply Forall_forall. intros v Hv.
    exact (init_ixes_range permutation permutation_spec nd s ds v Hds Hv). }
  split; [exact Hnd|]. split; [exact Hr|].
  pose proof (num_problems_pos nd) as Hpos.
  assert (Hincl : incl (ixes ds) (range (num_problems nd))).
  { intros v Hv. apply In_range. rewrite Forall_forall in Hr. now apply Hr. }
  pose proof (NoDup_incl_length Hnd Hincl) as Hle.
  rewrite length_range in Hle. unfold AdditionDataset_len, len. lia.
Qed.

(** X7: two different positions of one split give different problems:
    the prompts [x[:ndigit*2]] of their items differ. *)
Theorem items_distinct (nd : nat) (s : string) (ds : AdditionDataset)
        (i j : Z) (x y x' y' : list Z) :
  (1 <= nd)%nat ->
  init nd s = Ok ds ->
  0 <= i < j ->
  AdditionDataset_getitem ds i = Ok (x, y) ->
  AdditionDataset_getitem ds j = Ok (x', y') ->
  slice_to x (Z.of_nat nd * 2) <> slice_to x' (Z.of_nat nd * 2).
Proof.
  intros Hnd Hds Hij Hi Hj Heq.
  destruct (getitem_Ok nd s ds i x y Hnd Hds Hi) as [v [Hv [_ [Hr [Hp _]]]]].
  destruct (getitem_Ok nd s ds j x' y' Hnd Hds Hj) as [v' [Hv' [_ [Hr' [Hp' _]]]]].
  rewrite Hp, Hp' in Heq. apply prompt_of_inj in Heq; [|assumption..]. subst v'.
  pose proof (index_Ok_valid _ _ _ Hv) as Hvi.
  apply index_nth_error in Hv; [|lia]. apply index_nth_error in Hv'; [|lia].
  pose proof (init_NoDup nd s ds Hds) as Hnodup.
  rewrite NoDup_nth_error in Hnodup.
  assert (Z.to_nat i = Z.to_nat j).
  { apply Hnodup; [unfold len in Hvi; lia | congruence]. }
  lia.
Qed.

(** X8: no problem of the test split is in a training split: an item of
    a dataset built with ['test'] and an item of a dataset built with any
    other split string never have the same prompt [x[:ndigit*2]]. *)
Theorem no_train_test_leak (nd : nat) (s : string) (tr te : AdditionDataset)
        (i j : Z) (x y x' y' : list Z) :
  (1 <= nd)%nat ->
  s <> "test"%string ->
  init nd s = Ok tr ->
  init nd "test" = Ok te ->
  AdditionDataset_getitem tr i = Ok (x, y) ->
  AdditionDataset_getitem te j = Ok (x', y') ->
  slice_to x (Z.of_nat nd * 2) <> slice_to x' (Z.of_nat nd * 2).
Proof.
  intros Hnd Hs Htr Hte Hi Hj Heq.
  destruct (getitem_Ok nd s tr i x y Hnd Htr Hi) as [v [_ [Hin [Hr [Hp _]]]]].
  destruct (getitem_Ok nd "test" te j x' y' Hnd Hte Hj)
    as [v' [_ [Hin' [Hr' [Hp' _]]]]].
  rewrite Hp, Hp' in Heq. apply prompt_of_inj in Heq; [|assumption..]. subst v'.
  apply (init_Ok permutation) in Htr. destruct Htr as [k [Hk [_ [_ Htr]]]].
  apply (init_Ok permutation) in Hte. destruct Hte as [k' [Hk' [_ [_ Hte]]]].
  rewrite Hk in Hk'. injection Hk' as <-.
  apply String.eqb_neq in Hs. rewrite Hs in Htr.
  change (String.eqb "test" "test") with true in Hte.
  rewrite Htr in Hin. rewrite Hte in Hin'.
  revert Hin.
  apply (NoDup_app_disjoint (slice_to (permutation (num_problems nd)) k));
    [|exact Hin'].
  rewrite slice_to_from.
  pose proof (num_problems_pos nd).
  apply (perm_NoDup permutation permutation_spec). lia.
Qed.

(** X9: the target of an item is the sum of the operands its input shows:
    decoding [x] and [y] as [give_exam] decodes a prompt and a completed
    row gives [(a, b, a + b)] for the problem [(a, b)] of the item. *)
Theorem target_is_sum (nd : nat) (s : string) (ds : AdditionDataset)
        (idx : Z) (x y : list Z) :
  (1 <= nd)%nat ->
  init nd s = Ok ds ->
  AdditionDataset_getitem ds idx = Ok (x, y) ->
  exists v a b,
    index (ixes ds) idx = Ok v /\
    problem_of_index nd v = Ok (a, b) /\
    decode nd x y = Ok (a, b, a + b).
Proof.
  intros Hnd Hds Hget.
  destruct (getitem_Ok nd s ds idx x y Hnd Hds Hget)
    as [v [Hv [_ [_ [_ [Hab Hd]]]]]].
  exists v, (a_of nd v), (b_of nd v).
  split; [exact Hv|]. split; [exact Hab | exact Hd].
Qed.

(** X10: for [ndigit >= 1] the two splits together have one index per
    problem; the test split has [min(floor(num/5), 1000)] of them, between
    [20] and [1000], and the training split the remaining ones, at least
    four times as many. *)
Theorem split_sizes (nd : nat) (te tr : AdditionDataset) :
  (1 <= nd)%nat ->
  init nd "test" = Ok te ->
  init nd "train" = Ok tr ->
  AdditionDataset_len te + AdditionDataset_len tr = num_problems nd /\
  AdditionDataset_len tr = num_problems nd - Z.min (num_problems nd / 5) 1000 /\
  20 <= AdditionDataset_len te <= 1000 /\
  4 * AdditionDataset_len te <= AdditionDataset_len tr.
Proof.
  intros Hnd Hte Htr.
  pose proof (test_len permutation permutation_spec nd te Hnd Hte) as Hlen.
  pose proof (num_problems_ge nd Hnd) as Hge.
  apply (init_Ok permutation) in Htr. destruct Htr as [k [Hk [_ [_ Htr]]]].
  apply (init_Ok permutation) in Hte. destruct Hte as [k' [Hk' [_ [_ Hte]]]].
  rewrite Hk in Hk'. injection Hk' as <-.
  change (String.eqb "train" "test") with false in Htr.
  change (String.eqb "test" "test") with true in Hte.
  assert (Hsum : AdditionDataset_len te + AdditionDataset_len tr = num_problems nd).
  { unfold AdditionDataset_len, len. rewrite Hte, Htr.
    rewrite <- Nat2Z.inj_add, <- length_app, slice_to_from.
    apply (perm_len permutation permutation_spec). lia. }
  assert (20 <= num_problems nd / 5) by (apply Z.div_le_lower_bound; lia).
  pose proof (Z.mul_div_le (num_problems nd) 5 ltac:(lia)).
  lia.
Qed.

End Splits.

Lemma getitem_index_error_witness :
  exists ds,
    AdditionDataset_init rev_permutation 1 "test" = Ok ds /\
    AdditionDataset_len ds = 20 /\
    AdditionDataset_getitem ds 20 = Raise IndexError /\
    AdditionDataset_getitem ds (-1) =
    AdditionDataset_getitem ds (-1 + AdditionDataset_len ds).
Proof.
  eexists. split; [vm_compute; reflexivity|]. split; [reflexivity|].
  split.
  - apply (getitem_index_error rev_permutation rev_permutation_spec 1 "test" _ 20);
      first [ lia | vm_compute; reflexivity
            | right; unfold AdditionDataset_len, len; cbn; lia ].
  - apply (getitem_index_error rev_permutation rev_permutation_spec 1 "test" _ (-1));
      first [ lia | vm_compute; reflexivity
            | unfold AdditionDataset_len, len; cbn; lia ].
Defined.

Lemma ixes_invariant_witness :
  exists ds,
    AdditionDataset_init rev_permutation 1 "train" = Ok ds /\
    NoDup (ixes ds) /\
    Forall (fun v => 0 <= v < num_problems 1) (ixes ds) /\
    AdditionDataset_len ds <= num_problems 1.
Proof.
  eexists. split; [vm_compute; reflexivity|].
  apply (ixes_invariant rev_permutation rev_permutation_spec 1 "train").
  vm_compute. reflexivity.
Defined.

Lemma items_distinct_witness :
  exists ds x y x' y',
    AdditionDataset_init rev_permutation 1 "train" = Ok ds /\
    AdditionDataset_getitem ds 0 = Ok (x, y) /\
    AdditionDataset_getitem ds 1 = Ok (x', y') /\
    slice_to x (Z.of_nat 1 * 2) <> slice_to x' (Z.of_nat 1 * 2).
Proof.
  eexists _, _, _, _, _. split; [vm_compute; reflexivity|].
  split; [vm_compute; reflexivity|]. split; [vm_compute; reflexivity|].
  eapply (items_distinct rev_permutation rev_permutation_spec 1 "train" _ 0 1);
    [lia | vm_compute; reflexivity | lia
     | vm_compute; reflexivity | vm_compute; reflexivity].
Defined.

Lemma no_train_test_leak_witness :
  exists tr te x y x' y',
    AdditionDataset_init rev_permutation 1 "train" = Ok tr /\
    AdditionDataset_init rev_permutation 1 "test" = Ok te /\
    AdditionDataset_getitem tr 0 = Ok (x, y) /\
    AdditionDataset_getitem te 0 = Ok (x', y') /\
    slice_to x (Z.of_nat 1 * 2) <> slice_to x' (Z.of_nat 1 * 2).
Proof.
  eexists _, _, _, _, _, _. split; [vm_compute; reflexivity|].
  split; [vm_compute; reflexivity|]. split; [vm_compute; reflexivity|].
  split; [vm_compute; reflexivity|].
  eapply (no_train_test_leak rev_permutation rev_permutation_spec 1 "train" _ _ 0 0);
    [lia | discriminate | vm_compute; reflexivity | vm_compute; reflexivity
     | vm_compute; reflexivity | vm_compute; reflexivity].
Defined.

Lemma target_is_sum_witness :
  exists ds x y v a b,
    AdditionDataset_init rev_permutation 1 "train" = Ok ds /\
    AdditionDataset_getitem ds 0 = Ok (x, y) /\
    index (ixes ds) 0 = Ok v /\
    problem_of_index 1 v = Ok (a, b) /\
    decode 1 x y = Ok (a, b, a + b).
Proof.
  assert (H : exists ds x y,
             AdditionDataset_init rev_permutation 1 "train" = Ok ds /\
             AdditionDataset_getitem ds 0 = Ok (x, y)).
  { eexists _, _, _. split; [vm_compute; reflexivity|]. vm_compute. reflexivity. }
  destruct H as [ds [x [y [Hds Hget]]]].
  destruct (target_is_sum rev_permutation rev_permutation_spec 1 "train"
              ds 0 x y ltac:(lia) Hds Hget) as [v [a [b H]]].
  exists ds, x, y, v, a, b. split; [exact Hds|]. split; [exact Hget | exact H].
Defined.

Lemma split_sizes_witness :
  exists te tr,
    AdditionDataset_init rev_permutation 1 "test" = Ok te /\
    AdditionDataset_init rev_permutation 1 "train" = Ok tr /\
    AdditionDataset_len te + AdditionDataset_len tr = num_problems 1 /\
    AdditionDataset_len tr = num_problems 1 - Z.min (num_problems 1 / 5) 1000 /\
    20 <= AdditionDataset_len te <= 1000 /\
    4 * AdditionDataset_len te <= AdditionDataset_len tr.
Proof.
  eexists _, _. split; [vm_compute; reflexivity|].
  split; [vm_compute; reflexivity|].
  apply (split_sizes rev_permutation rev_permutation_spec 1);
    [lia | vm_compute; reflexivity | vm_compute; reflexivity].
Defined.

(** ** [give_exam] on small datasets *)

Example give_exam_zero_sample :
  result_map (fun ds => give_exam zero_sample 1 ds 8 (-1))
             (AdditionDataset_init rev_permutation 1 "test")
  = Ok (Ok [0; 0; 0; 0; 0; 0; 0; 0; 0; 0; 0; 0; 0; 0; 0; 0; 0; 0; 0; 0]).
Proof. vm_compute. reflexivity. Qed.

Example give_exam_adder_sample :
  result_map (fun ds => give_exam adder_sample 1 ds 8 2)
             (AdditionDataset_init rev_permutation 1 "test")
  = Ok (Ok [1; 1; 1; 1; 1; 1; 1; 1; 1; 1; 1; 1; 1; 1; 1; 1]).
Proof. vm_compute. reflexivity. Qed.

Example give_exam_max_batches_0 :
  result_map (fun ds => give_exam adder_sample 1 ds 8 0)
             (AdditionDataset_init rev_permutation 1 "test")
  = Ok (Ok [1; 1; 1; 1; 1; 1; 1; 1]).
Proof. vm_compute. reflexivity. Qed.

(** ** Lists of results, batches *)

Lemma mapM_Forall_Ok {A B : Type} (f : A -> result B) (g : A -> B) (l : list A) :
  Forall (fun a => f a = Ok (g a)) l -> mapM f l = Ok (map g l).
Proof.
  induction 1 as [|a l Ha _ IH]; simpl; [reflexivity|].
  rewrite Ha, IH. reflexivity.
Qed.

Lemma index_app_head {A : Type} (l1 l2 : list A) (a : A) :
  index (l1 ++ a :: l2) (len l1) = Ok a.
Proof.
  unfold index, len. rewrite length_app. cbn [List.length].
  destruct (Z.ltb_spec (Z.of_nat (List.length l1))
              (- Z.of_nat (List.length l1 + S (List.length l2)))); [lia|].
  destruct (Z.leb_spec (Z.of_nat (List.length l1 + S (List.length l2)))
              (Z.of_nat (List.length l1))); [lia|].
  cbn [orb]. destruct (Z.ltb_spec (Z.of_nat (List.length l1)) 0); [lia|].
  rewrite Nat2Z.id, nth_error_app2, Nat.sub_diag by lia. reflexivity.
Qed.

(** [[f(l[i]) for i in range(len(l))]] is [map f l]. *)
Lemma mapM_index_range {A B : Type} (f : A -> B) (l : list A) :
  mapM (fun i => c <- index l i ;; Ok (f c)) (range (len l)) = Ok (map f l).
Proof.
  unfold range, len. rewrite Nat2Z.id.
  assert (H : forall l2 l1,
             l = l1 ++ l2 ->
             mapM (fun i => c <- index l i ;; Ok (f c))
                  (map Z.of_nat (seq (List.length l1) (List.length l2)))
             = Ok (map f l2)).
  { induction l2 as [|a l2 IH]; intros l1 Hl; [reflexivity|].
    cbn [List.length seq map mapM].
    rewrite Hl at 1. change (Z.of_nat (List.length l1)) with (len l1).
    rewrite index_app_head. cbn [bind].
    specialize (IH (l1 ++ [a])). rewrite length_app in IH.
    change (List.length [a]) with 1%nat in IH.
    rewrite Nat.add_1_r in IH. rewrite IH by (now rewrite <- app_assoc).
    reflexivity. }
  exact (H l [] eq_refl).
Qed.

Lemma firstn_add {A : Type} (a b : nat) (l : list A) :
  firstn (a + b) l = firstn a l ++ firstn b (skipn a l).
Proof.
  revert l; induction a as [|a IH]; intros l; [reflexivity|].
  destruct l as [|x l]; [now rewrite !firstn_nil|].
  cbn [Nat.add firstn skipn app]. now rewrite IH.
Qed.

Lemma firstn_min_length {A : Type} (m : nat) (l : list A) :
  firstn (Nat.min (List.length l) m) l = firstn m l.
Proof.
  destruct (Nat.le_ge_cases m (List.length l)) as [H | H].
  - now rewrite Nat.min_r.
  - rewrite Nat.min_l, firstn_all, firstn_all2 by lia. reflexivity.
Qed.

(** The first [m] batches hold the first [m * n] elements. *)
Lemma concat_firstn_chunk {A : Type} (n : nat) :
  (1 <= n)%nat ->
  forall (fuel : nat) (l : list A) (m : nat),
    (List.length l <= fuel)%nat ->
    List.concat (firstn m (chunk fuel n l)) = firstn (m * n) l.
Proof.
  intros Hn. induction fuel as [|fuel IH]; intros l m Hl.
  - destruct l; [|simpl in Hl; lia]. now rewrite firstn_nil, firstn_nil.
  - destruct l as [|x l]; [now rewrite firstn_nil, firstn_nil|].
    destruct m as [|m]; [reflexivity|].
    cbn [chunk firstn List.concat]. rewrite IH.
    + cbn [Nat.mul]. rewrite (firstn_add n (m * n)). reflexivity.
    + rewrite length_skipn. cbn [List.length] in *. lia.
Qed.

Lemma concat_chunk {A : Type} (n : nat) :
  (1 <= n)%nat ->
  forall (fuel : nat) (l : list A),
    (List.length l <= fuel)%nat -> List.concat (chunk fuel n l) = l.
Proof.
  intros Hn. induction fuel as [|fuel IH]; intros l Hl.
  - destruct l; [reflexivity | simpl in Hl; lia].
  - destruct l as [|x l]; [reflexivity|].
    cbn [chunk List.concat].
    rewrite IH by (rewrite length_skipn; cbn [List.length] in *; lia).
    apply firstn_skipn.
Qed.

(** A batch is not empty and holds elements of the list. *)
Lemma chunk_In {A : Type} (n : nat) :
  (1 <= n)%nat ->
  forall (fuel : nat) (l c : list A),
    In c (chunk fuel n l) -> c <> [] /\ incl c l.
Proof.
  intros Hn. induction fuel as [|fuel IH]; intros l c Hc; [destruct Hc|].
  destruct l as [|x l]; [destruct Hc|].
  cbn [chunk] in Hc. destruct Hc as [<- | Hc].
  - split.
    + destruct n; [lia | discriminate].
    + intros a Ha. rewrite <- (firstn_skipn n (x :: l)).
      apply in_or_app. now left.
  - destruct (IH _ _ Hc) as [Hne Hincl]. split; [exact Hne|].
    intros a Ha. rewrite <- (firstn_skipn n (x :: l)).
    apply in_or_app. right. now apply Hincl.
Qed.

Lemma stack_same_length (k : nat) (rows : list (list Z)) :
  rows <> [] -> Forall (fun r => List.length r = k) rows -> stack rows = Ok rows.
Proof.
  intros Hne Hk. destruct rows as [|r rest]; [congruence|].
  inversion Hk as [|? ? Hr Hrest]; subst. unfold stack.
  replace (forallb _ rest) with true; [reflexivity|].
  symmetry. apply forallb_forall. intros r' Hr'.
  rewrite Forall_forall in Hrest. rewrite (Hrest r' Hr'). apply Nat.eqb_refl.
Qed.

Lemma combine_map_map {A B C D : Type} (f : A -> C) (g : B -> D)
      (l1 : list A) (l2 : list B) :
  combine (map f l1) (map g l2) =
  map (fun p => (f (fst p), g (snd p))) (combine l1 l2).
Proof.
  revert l2; induction l1 as [|a l1 IH]; intros [|b l2]; simpl; try reflexivity.
  now rewrite IH.
Qed.

Lemma combine_same {A : Type} (l : list A) :
  combine l l = map (fun a => (a, a)) l.
Proof.
  induction l as [|a l IH]; simpl; [reflexivity | now rewrite IH].
Qed.

(** ** The prompt of an item *)

Lemma prompt_of_range (nd : nat) (v : Z) :
  (nd <= 18)%nat ->
  0 <= v < num_problems nd ->
  d1i nd (prompt_of nd v) = Ok (a_of nd v) /\
  d2i nd (prompt_of nd v) = Ok (b_of nd v) /\
  List.length (prompt_of nd v) = (2 * nd)%nat.
Proof.
  intros Hnd Hv. destruct (problem_of_index_range nd v Hv) as [Ha Hb].
  pose proof (lt_pow10_int64 nd _ Hnd (proj2 Ha)) as Hamax.
  pose proof (lt_pow10_int64 nd _ Hnd (proj2 Hb)) as Hbmax.
  unfold prompt_of, d1i, d2i. rewrite factors_pows by exact Hnd.
  cbn [bind]. rewrite slice_from_factors.
  split; [|split].
  - rewrite slice_to_app by (now rewrite len_digits).
    apply mul_sum_digits; assumption.
  - rewrite <- (app_nil_r (digits nd (b_of nd v))).
    rewrite slice_app by (rewrite !len_digits; lia).
    apply mul_sum_digits; assumption.
  - rewrite length_app, !length_digits. lia.
Qed.

Lemma slice_to_x_of (nd : nat) (v : Z) :
  slice_to (x_of nd v) (Z.of_nat nd * 2) = prompt_of nd v.
Proof.
  unfold x_of, prompt_of. rewrite app_assoc. apply slice_to_app.
  unfold len. rewrite length_app, !length_digits. lia.
Qed.

Lemma last_value_app (nd : nat) (r comp : list Z) :
  (nd <= 18)%nat ->
  List.length comp = S nd ->
  d3i_pred nd (r ++ comp) = Ok (last_value nd (r ++ comp)) /\
  last_value nd (r ++ comp) = wrap64 (dot comp (pows (S nd))).
Proof.
  intros Hnd Hl. unfold last_value.
  rewrite skipn_exact by (rewrite length_app; lia).
  split; [apply d3i_pred_dot; assumption | reflexivity].
Qed.

Lemma mapM_map {A B C : Type} (f : B -> result C) (g : A -> B) (l : list A) :
  mapM f (map g l) = mapM (fun a => f (g a)) l.
Proof.
  induction l as [|a l IH]; simpl; [reflexivity | now rewrite IH].
Qed.

Lemma exam_loop_cons (sample : list (list Z) -> Z -> list (list Z))
      (nd : nat) (ds : AdditionDataset) (mb : Z)
      (idxs : list Z) (rest : list (list Z)) (b : Z) (results : list Z) :
  exam_loop sample nd ds mb (idxs :: rest) b results =
  (r <- exam_body sample nd ds idxs ;;
   if (mb >=? 0) && (b + 1 >=? mb) then Ok (results ++ r)
   else exam_loop sample nd ds mb rest (b + 1) (results ++ r)).
Proof.
  cbn [exam_loop]. unfold exam_body.
  destruct (mapM (AdditionDataset_getitem ds) idxs) as [items|e];
    cbn [bind]; [|reflexivity].
  destruct (stack (map fst items)) as [x|e]; cbn [bind]; [|reflexivity].
  destruct (stack (map snd items)) as [y|e]; cbn [bind]; reflexivity.
Qed.

Lemma marks_all_one (nd : nat) (outs : list (list Z)) (vs : list Z) :
  Forall2 (fun out v => last_value nd out = sum_of nd v) outs vs ->
  Forall (eq 1) (map (fun p => mark nd (fst p) (snd p)) (combine outs vs)).
Proof.
  induction 1 as [|out v outs vs Hov _ IH]; cbn [combine map];
    constructor; [|exact IH].
  cbn [fst snd]. unfold mark. rewrite Hov, Z.eqb_refl. reflexivity.
Qed.

(** ** The exam *)

Section ExamProperties.

Variable permutation : Z -> list Z.
Hypothesis permutation_spec :
  forall n, 0 <= n -> Permutation (permutation n) (range n).

(** [sample] keeps each prompt and appends [steps] tokens to it. *)
Variable sample : list (list Z) -> Z -> list (list Z).
Hypothesis sample_spec :
  forall rows steps, 0 <= steps ->
    Forall2 (fun r out => exists comp, out = r ++ comp /\ len comp = steps)
            rows (sample rows steps).

Lemma sample_rows (nd : nat) (rows : list (list Z)) :
  (nd <= 18)%nat ->
  List.length (sample rows (Z.of_nat nd + 1)) = List.length rows /\
  Forall (fun out => d3i_pred nd out = Ok (last_value nd out))
         (sample rows (Z.of_nat nd + 1)).
Proof.
  intros Hnd.
  pose proof (sample_spec rows (Z.of_nat nd + 1) ltac:(lia)) as H.
  split; [symmetry; eapply Forall2_length, H|].
  induction H as [|r out rows outs [comp [-> Hc]] _ IH]; constructor; [|exact IH].
  apply last_value_app; [exact Hnd|]. unfold len in Hc. lia.
Qed.

(** One batch: the marks of the rows that [sample] returns. *)
Lemma exam_batch_value (nd : nat) (vs : list Z) (x : list (list Z)) :
  (nd <= 18)%nat ->
  Forall (fun v => 0 <= v < num_problems nd) vs ->
  map (fun r => slice_to r (Z.of_nat nd * 2)) x = map (prompt_of nd) vs ->
  exam_batch sample nd x =
  Ok (map (fun p => mark nd (fst p) (snd p))
          (combine (sample (map (prompt_of nd) vs) (Z.of_nat nd + 1)) vs)).
Proof.
  intros Hnd Hvs Hx. unfold exam_batch. rewrite Hx.
  destruct (sample_rows nd (map (prompt_of nd) vs) Hnd) as [Hlen Hd3].
  rewrite length_map in Hlen.
  set (outs := sample (map (prompt_of nd) vs) (Z.of_nat nd + 1)) in *.
  rewrite !mapM_map.
  rewrite (mapM_Forall_Ok _ (a_of nd))
    by (eapply Forall_impl; [|exact Hvs]; intros v Hv;
        apply prompt_of_range; assumption).
  cbn [bind].
  rewrite (mapM_Forall_Ok _ (b_of nd))
    by (eapply Forall_impl; [|exact Hvs]; intros v Hv;
        apply prompt_of_range; assumption).
  cbn [bind].
  rewrite (mapM_Forall_Ok _ (last_value nd) outs Hd3). cbn [bind].
  assert (Hgt : map (fun p => add64 (fst p) (snd p))
                    (combine (map (a_of nd) vs) (map (b_of nd) vs))
                = map (sum_of nd) vs).
  { rewrite combine_map_map, combine_same, !map_map. cbn [fst snd].
    apply map_ext_in. intros v Hv. rewrite Forall_forall in Hvs.
    destruct (problem_of_index_range nd v (Hvs v Hv)) as [Ha Hb].
    pose proof (sum_int64 nd _ _ Hnd (proj2 Ha) (proj2 Hb)) as Hmax.
    unfold add64, sum_of. apply wrap64_small. rewrite int64_min_value. lia. }
  rewrite Hgt. unfold eq_rows. rewrite !length_map, Hlen, Nat.eqb_refl.
  cbn [bind].
  match goal with |- context [index ?c] => set (C := c) end.
  replace (len x) with (len C).
  - rewrite (mapM_index_range (fun c : bool => if c then 1 else 0)).
    subst C. rewrite combine_map_map, !map_map. reflexivity.
  - subst C. unfold len.
    rewrite !length_map, length_combine, !length_map, Hlen, Nat.min_id.
    apply (f_equal (@List.length _)) in Hx. rewrite !length_map in Hx.
    now rewrite Hx.
Qed.

Lemma value_at_index (ds : AdditionDataset) (i : Z) :
  0 <= i < AdditionDataset_len ds ->
  index (ixes ds) i = Ok (value_at ds i) /\ In (value_at ds i) (ixes ds).
Proof.
  intros Hi. destruct (index_valid (ixes ds) i) as [v [Hv Hin]];
    [unfold AdditionDataset_len in Hi; lia|].
  pose proof (index_nth_error _ _ _ (proj1 Hi) Hv) as Hn.
  unfold value_at. rewrite (nth_error_nth _ _ 0 Hn). split; assumption.
Qed.

Lemma getitem_value_at (nd : nat) (s : string) (ds : AdditionDataset) (i : Z) :
  (1 <= nd)%nat ->
  AdditionDataset_init permutation nd s = Ok ds ->
  0 <= i < AdditionDataset_len ds ->
  AdditionDataset_getitem ds i =
    Ok (x_of nd (value_at ds i), y_of nd (value_at ds i)) /\
  0 <= value_at ds i < num_problems nd.
Proof.
  intros Hnd Hds Hi.
  destruct (getitem_init permutation permutation_spec nd s ds i Hnd Hds
              ltac:(lia)) as [v [Hv [Hr [_ Hget]]]].
  destruct (value_at_index ds i Hi) as [Hv' _].
  rewrite Hv in Hv'. injection Hv' as ->. split; [exact Hget | exact Hr].
Qed.

(** One turn of the loop on a batch of positions of the dataset. *)
Lemma exam_body_value (nd : nat) (s : string) (ds : AdditionDataset)
      (idxs : list Z) :
  (1 <= nd)%nat ->
  AdditionDataset_init permutation nd s = Ok ds ->
  idxs <> [] ->
  Forall (fun i => 0 <= i < AdditionDataset_len ds) idxs ->
  exam_body sample nd ds idxs =
  Ok (map (fun p => mark nd (fst p) (snd p))
          (combine (sample (map (prompt_of nd) (map (value_at ds) idxs))
                           (Z.of_nat nd + 1))
                   (map (value_at ds) idxs))).
Proof.
  intros Hnd Hds Hne Hidx. unfold exam_body.
  rewrite (mapM_Forall_Ok _
             (fun i => (x_of nd (value_at ds i), y_of nd (value_at ds i))))
    by (eapply Forall_impl; [|exact Hidx]; intros i Hi;
        apply (getitem_value_at nd s ds i Hnd Hds Hi)).
  cbn [bind].
  rewrite (map_map _ fst), (map_map _ snd). cbn [fst snd].
  rewrite (stack_same_length (3 * nd)).
  2:{ destruct idxs; [congruence | discriminate]. }
  2:{ apply Forall_forall. intros r Hr. apply in_map_iff in Hr.
      destruct Hr as [i [<- _]]. unfold x_of.
      rewrite !length_app, !length_digits. lia. }
  cbn [bind].
  rewrite (stack_same_length (3 * nd)).
  2:{ destruct idxs; [congruence | discriminate]. }
  2:{ apply Forall_forall. intros r Hr. apply in_map_iff in Hr.
      destruct Hr as [i [<- _]]. unfold y_of.
      rewrite !length_app, repeat_length, !length_digits. lia. }
  cbn [bind]. apply (exam_batch_value nd (map (value_at ds) idxs)).
  - pose proof (init_bound permutation nd s ds Hds). lia.
  - apply Forall_forall. intros v Hv. apply in_map_iff in Hv.
    destruct Hv as [i [<- Hi]]. rewrite Forall_forall in Hidx.
    apply (getitem_value_at nd s ds i Hnd Hds (Hidx i Hi)).
  - rewrite !map_map. apply map_ext. intros i. apply slice_to_x_of.
Qed.

(** The loop, when every turn succeeds with as many marks as positions. *)
Lemma exam_loop_spec (nd : nat) (ds : AdditionDataset) (mb : Z) (Q : Z -> Prop) :
  forall (bs : list (list Z)) (b : Z) (results : list Z),
    (forall idxs, In idxs bs ->
       exists r, exam_body sample nd ds idxs = Ok r /\
                 List.length r = List.length idxs /\ Forall Q r) ->
    exists r,
      exam_loop sample nd ds mb bs b results = Ok (results ++ r) /\
      List.length r =
        List.length (List.concat (firstn (taken mb b (List.length bs)) bs)) /\
      Forall Q r.
Proof.
  induction bs as [|idxs rest IH]; intros b results Hbs.
  - exists []. cbn [exam_loop]. rewrite app_nil_r, firstn_nil.
    split; [reflexivity|]. split; [reflexivity | constructor].
  - destruct (Hbs idxs (or_introl eq_refl)) as [r1 [Hr1 [Hl1 HQ1]]].
    rewrite exam_loop_cons, Hr1. cbn [bind].
    destruct ((mb >=? 0) && (b + 1 >=? mb)) eqn:Hstop.
    + exists r1. split; [reflexivity|]. split; [|exact HQ1].
      apply andb_prop in Hstop. destruct Hstop as [H1 H2].
      apply Z.geb_le in H1. apply Z.geb_le in H2.
      unfold taken. destruct (Z.ltb_spec mb 0); [lia|].
      replace (Nat.min (List.length (idxs :: rest))
                 (Z.to_nat (Z.max 1 (mb - b)))) with 1%nat
        by (cbn [List.length]; lia).
      cbn [firstn List.concat]. rewrite app_nil_r. exact Hl1.
    + destruct (IH (b + 1) (results ++ r1)) as [r2 [Hr2 [Hl2 HQ2]]].
      { intros i Hi. apply Hbs. now right. }
      exists (r1 ++ r2). rewrite Hr2, app_assoc.
      split; [reflexivity|]. split; [|apply Forall_app; now split].
      assert (Ht : taken mb b (List.length (idxs :: rest)) =
                   S (taken mb (b + 1) (List.length rest))).
      { unfold taken. cbn [List.length].
        apply andb_false_iff in Hstop.
        destruct (Z.ltb_spec mb 0); [reflexivity|].
        destruct Hstop as [H1 | H2].
        - rewrite Z.geb_leb in H1. apply Z.leb_gt in H1. lia.
        - rewrite Z.geb_leb in H2. apply Z.leb_gt in H2. lia. }
      rewrite Ht. cbn [firstn List.concat].
      rewrite !length_app, Hl1, Hl2. reflexivity.
Qed.

Lemma batches_valid (n bsz : Z) (idxs : list Z) :
  0 < bsz -> In idxs (batches n bsz) ->
  idxs <> [] /\ Forall (fun i => 0 <= i < n) idxs.
Proof.
  intros Hb Hin. unfold batches in Hin.
  apply chunk_In in Hin; [|lia]. destruct Hin as [Hne Hincl].
  split; [exact Hne|]. apply Forall_forall. intros i Hi.
  apply In_range, Hincl, Hi.
Qed.

Lemma batches_examined (n bsz mb : Z) :
  0 <= n -> 0 < bsz ->
  Z.of_nat (List.length
    (List.concat (firstn (taken mb 0 (List.length (batches n bsz)))
                         (batches n bsz))))
  = examined n bsz mb.
Proof.
  intros Hn Hb. unfold taken, examined, batches.
  destruct (Z.ltb_spec mb 0).
  - rewrite firstn_all, concat_chunk, length_range by (rewrite ?length_range; lia).
    lia.
  - rewrite firstn_min_length, concat_firstn_chunk
      by (rewrite ?length_range; lia).
    rewrite length_firstn, length_range. nia.
Qed.

(** X11: one turn of the loop of [give_exam] on a non-empty batch of
    positions of a dataset built for the same [ndigit], with a sampler that
    keeps its prompts and appends [ndigit + 1] tokens: it does not raise and
    gives one mark per position, in order; the mark is [1] exactly when the
    integer read from the last [ndigit + 1] tokens of the sampled row is the
    true sum [a + b] of the problem at that position. *)
Theorem exam_body_marks (nd : nat) (s : string) (ds : AdditionDataset)
        (idxs : list Z) :
  (1 <= nd)%nat ->
  AdditionDataset_init permutation nd s = Ok ds ->
  idxs <> [] ->
  Forall (fun i => 0 <= i < AdditionDataset_len ds) idxs ->
  exists outs r,
    outs = sample (map (prompt_of nd) (map (value_at ds) idxs)) (Z.of_nat nd + 1) /\
    exam_body sample nd ds idxs = Ok r /\
    List.length outs = List.length idxs /\
    List.length r = List.length idxs /\
    Forall2 (fun p m => (m = 1 /\ last_value nd (fst p) = sum_of nd (value_at ds (snd p)))
                        \/ (m = 0 /\ last_value nd (fst p) <> sum_of nd (value_at ds (snd p))))
            (combine outs idxs) r.
Proof.
  intros Hnd Hds Hne Hidx.
  pose proof (exam_body_value nd s ds idxs Hnd Hds Hne Hidx) as H.
  destruct (sample_rows nd (map (prompt_of nd) (map (value_at ds) idxs)))
    as [Hlen _]; [pose proof (init_bound permutation nd s ds Hds); lia|].
  rewrite !length_map in Hlen.
  set (outs := sample (map (prompt_of nd) (map (value_at ds) idxs))
                      (Z.of_nat nd + 1)) in *.
  eexists outs, _. split; [reflexivity|]. split; [exact H|].
  split; [exact Hlen|].
  split; [rewrite length_map, length_combine, length_map, Hlen; lia|].
  clear H. revert Hlen. generalize outs. clear.
  induction idxs as [|i idxs IH]; intros [|out outs] Hlen; try discriminate;
    cbn [map combine]; constructor.
  - cbn [fst snd]. unfold mark.
    destruct (Z.eqb_spec (last_value nd out) (sum_of nd (value_at ds i)));
      [left | right]; split; auto.
  - apply IH. simpl in Hlen. lia.
Qed.

(** X12: [give_exam] on a dataset built for the same [ndigit], with a
    positive batch size and a sampler that keeps its prompts and appends
    [ndigit + 1] tokens: it does not raise, every result is [0] or [1], and
    it examines all [len(dataset)] items when [max_batches] is negative and
    otherwise the first [min(len, batch_size * max(max_batches, 1))] items;
    so [max_batches = 0] still examines one batch. *)
Theorem give_exam_count (nd : nat) (s : string) (ds : AdditionDataset)
        (batch_size max_batches : Z) :
  (1 <= nd)%nat ->
  AdditionDataset_init permutation nd s = Ok ds ->
  0 < batch_size ->
  exists results,
    give_exam sample nd ds batch_size max_batches = Ok results /\
    len results = examined (AdditionDataset_len ds) batch_size max_batches /\
    Forall (fun m => m = 0 \/ m = 1) results.
Proof.
  intros Hnd Hds Hb. unfold give_exam.
  destruct (Z.leb_spec batch_size 0); [lia|].
  destruct (exam_loop_spec nd ds max_batches (fun m => m = 0 \/ m = 1)
              (batches (AdditionDataset_len ds) batch_size) 0 [])
    as [r [Hr [Hl HQ]]].
  - intros idxs Hin. apply batches_valid in Hin; [|exact Hb].
    destruct Hin as [Hne Hidx].
    rewrite (exam_body_value nd s ds idxs Hnd Hds Hne Hidx).
    destruct (sample_rows nd (map (prompt_of nd) (map (value_at ds) idxs)))
      as [Hlen _]; [pose proof (init_bound permutation nd s ds Hds); lia|].
    rewrite !length_map in Hlen.
    eexists. split; [reflexivity|]. split.
    + rewrite length_map, length_combine, length_map, Hlen. lia.
    + apply Forall_forall. intros m Hm. apply in_map_iff in Hm.
      destruct Hm as [p [<- _]]. unfold mark.
      destruct (_ =? _); [now right | now left].
  - exists r. split; [exact Hr|]. split; [|exact HQ].
    unfold len at 1. rewrite Hl. apply batches_examined; [|exact Hb].
    unfold AdditionDataset_len, len. lia.
Qed.

(** X13: if moreover the sampler answers every batch of prompts of valid
    problems with rows whose last [ndigit + 1] tokens read as the sum, then
    every result of [give_exam] is [1]: the score is 100%. *)
Theorem give_exam_perfect (nd : nat) (s : string) (ds : AdditionDataset)
        (batch_size max_batches : Z) :
  (1 <= nd)%nat ->
  AdditionDataset_init permutation nd s = Ok ds ->
  0 < batch_size ->
  (forall vs, Forall (fun v => 0 <= v < num_problems nd) vs ->
     Forall2 (fun out v => last_value nd out = sum_of nd v)
             (sample (map (prompt_of nd) vs) (Z.of_nat nd + 1)) vs) ->
  give_exam sample nd ds batch_size max_batches =
    Ok (repeat 1 (Z.to_nat (examined (AdditionDataset_len ds) batch_size max_batches))).
Proof.
  intros Hnd Hds Hb Hperfect. unfold give_exam.
  destruct (Z.leb_spec batch_size 0); [lia|].
  destruct (exam_loop_spec nd ds max_batches (eq 1)
              (batches (AdditionDataset_len ds) batch_size) 0 [])
    as [r [Hr [Hl HQ]]].
  - intros idxs Hin. apply batches_valid in Hin; [|exact Hb].
    destruct Hin as [Hne Hidx].
    rewrite (exam_body_value nd s ds idxs Hnd Hds Hne Hidx).
    assert (Hvs : Forall (fun v => 0 <= v < num_problems nd)
                         (map (value_at ds) idxs)).
    { apply Forall_forall. intros v Hv. apply in_map_iff in Hv.
      destruct Hv as [i [<- Hi]]. rewrite Forall_forall in Hidx.
      apply (getitem_value_at nd s ds i Hnd Hds (Hidx i Hi)). }
    pose proof (Hperfect _ Hvs) as HP.
    eexists. split; [reflexivity|]. split.
    + rewrite length_map, length_combine, (Forall2_length HP), length_map. lia.
    + apply marks_all_one, HP.
  - rewrite Hr. cbn [app]. f_equal.
    rewrite <- (batches_examined _ batch_size max_batches), Nat2Z.id, <- Hl
      by (unfold AdditionDataset_len, len; lia).
    apply Forall_eq_repeat. eapply Forall_impl; [|exact HQ].
    intros m Hm. now symmetry.
Qed.

End ExamProperties.

(** X14: [max_batches = 0] does not mean no batch.  The test
    [b+1 >= max_batches] is made after a batch has been examined, so
    [give_exam] with [max_batches = 0] does what it does with
    [max_batches = 1], and every negative [max_batches] does what [-1]
    does; this holds for every sampler, dataset and batch size. *)
Theorem give_exam_max_batches (sample : list (list Z) -> Z -> list (list Z))
        (nd : nat) (ds : AdditionDataset) (batch_size : Z) :
  give_exam sample nd ds batch_size 0 = give_exam sample nd ds batch_size 1 /\
  forall mb, mb < 0 ->
    give_exam sample nd ds batch_size mb = give_exam sample nd ds batch_size (-1).
Proof.
  unfold give_exam. destruct (batch_size <=? 0); [split; reflexivity|]. split.
  - destruct (batches (AdditionDataset_len ds) batch_size) as [|idxs rest];
      [reflexivity|].
    rewrite !exam_loop_cons. destruct (exam_body sample nd ds idxs); reflexivity.
  - intros mb Hmb.
    assert (H : forall bs b results,
               exam_loop sample nd ds mb bs b results =
               exam_loop sample nd ds (-1) bs b results).
    { induction bs as [|idxs rest IH]; intros b results; [reflexivity|].
      rewrite !exam_loop_cons.
      destruct (exam_body sample nd ds idxs) as [r|e]; cbn [bind]; [|reflexivity].
      destruct (Z.geb_spec mb 0); [lia|]. cbn [andb]. apply IH. }
    apply H.
Qed.

(** ** The exam with two concrete samplers *)

Lemma zero_sample_spec (rows : list (list Z)) (steps : Z) :
  0 <= steps ->
  Forall2 (fun r out => exists comp, out = r ++ comp /\ len comp = steps)
          rows (zero_sample rows steps).
Proof.
  intros Hs. induction rows as [|r rows IH]; cbn [zero_sample map];
    constructor; [|exact IH].
  eexists. split; [reflexivity|]. unfold len. rewrite repeat_length. lia.
Qed.

Lemma adder_sample_spec (rows : list (list Z)) (steps : Z) :
  0 <= steps ->
  Forall2 (fun r out => exists comp, out = r ++ comp /\ len comp = steps)
          rows (adder_sample rows steps).
Proof.
  intros Hs. induction rows as [|r rows IH]; cbn [adder_sample map];
    constructor; [|exact IH].
  eexists. split; [reflexivity|]. unfold len. rewrite length_digits. lia.
Qed.

Lemma adder_sample_perfect (nd : nat) (vs : list Z) :
  (nd <= 18)%nat ->
  Forall (fun v => 0 <= v < num_problems nd) vs ->
  Forall2 (fun out v => last_value nd out = sum_of nd v)
          (adder_sample (map (prompt_of nd) vs) (Z.of_nat nd + 1)) vs.
Proof.
  intros Hnd.
  induction 1 as [|v vs Hv _ IH]; cbn [adder_sample map]; constructor;
    [|exact IH].
  destruct (problem_of_index_range nd v Hv) as [Ha Hb].
  destruct (prompt_of_range nd v Hnd Hv) as [_ [_ Hlen]].
  rewrite Hlen. replace (2 * nd / 2)%nat with nd
    by (rewrite Nat.mul_comm, Nat.div_mul; lia).
  replace (Z.to_nat (Z.of_nat nd + 1)) with (S nd) by lia.
  unfold prompt_of at 2 3.
  rewrite firstn_exact, skipn_exact by apply length_digits.
  rewrite !dot_digits, !Z.mod_small by lia.
  destruct (last_value_app nd (prompt_of nd v)
              (digits (S nd) (sum_of nd v))) as [_ Hlv];
    [exact Hnd | apply length_digits|].
  pose proof (sum_lt_pow10 nd _ _ Ha Hb) as Hc.
  pose proof (sum_int64 nd _ _ Hnd (proj2 Ha) (proj2 Hb)) as Hmax.
  unfold sum_of in *.
  rewrite Hlv, dot_digits, Z.mod_small, wrap64_small
    by (rewrite ?int64_min_value; lia).
  reflexivity.
Qed.

Lemma exam_body_marks_witness :
  exists ds outs r,
    AdditionDataset_init rev_permutation 1 "test" = Ok ds /\
    outs = zero_sample (map (prompt_of 1) (map (value_at ds) [0; 1]))
                       (Z.of_nat 1 + 1) /\
    exam_body zero_sample 1 ds [0; 1] = Ok r /\
    List.length outs = List.length [0; 1] /\
    List.length r = List.length [0; 1] /\
    Forall2 (fun p m =>
               (m = 1 /\ last_value 1 (fst p) = sum_of 1 (value_at ds (snd p)))
               \/ (m = 0 /\ last_value 1 (fst p) <> sum_of 1 (value_at ds (snd p))))
            (combine outs [0; 1]) r.
Proof.
  assert (H : exists ds, AdditionDataset_init rev_permutation 1 "test" = Ok ds /\
                         AdditionDataset_len ds = 20).
  { eexists. split; [vm_compute; reflexivity | reflexivity]. }
  destruct H as [ds [Hds Hlen]].
  destruct (exam_body_marks rev_permutation rev_permutation_spec
              zero_sample zero_sample_spec 1 "test" ds [0; 1]
              ltac:(lia) Hds ltac:(discriminate))
    as [outs [r H]].
  - rewrite Hlen. repeat constructor; lia.
  - exists ds, outs, r. split; [exact Hds | exact H].
Defined.

Lemma give_exam_count_witness :
  exists ds results,
    AdditionDataset_init rev_permutation 1 "test" = Ok ds /\
    give_exam zero_sample 1 ds 8 0 = Ok results /\
    len results = examined (AdditionDataset_len ds) 8 0 /\
    Forall (fun m => m = 0 \/ m = 1) results.
Proof.
  assert (H : exists ds, AdditionDataset_init rev_permutation 1 "test" = Ok ds).
  { eexists. vm_compute. reflexivity. }
  destruct H as [ds Hds].
  destruct (give_exam_count rev_permutation rev_permutation_spec
              zero_sample zero_sample_spec 1 "test" ds 8 0
              ltac:(lia) Hds ltac:(lia)) as [results H].
  exists ds, results. split; [exact Hds | exact H].
Defined.

Lemma give_exam_perfect_witness :
  exists ds,
    AdditionDataset_init rev_permutation 1 "test" = Ok ds /\
    give_exam adder_sample 1 ds 8 2 =
      Ok (repeat 1 (Z.to_nat (examined (AdditionDataset_len ds) 8 2))).
Proof.
  assert (H : exists ds, AdditionDataset_init rev_permutation 1 "test" = Ok ds).
  { eexists. vm_compute. reflexivity. }
  destruct H as [ds Hds]. exists ds. split; [exact Hds|].
  apply (give_exam_perfect rev_permutation rev_permutation_spec
           adder_sample adder_sample_spec 1 "test" ds 8 2);
    [lia | exact Hds | lia
     | intros vs Hvs; apply adder_sample_perfect; [lia | exact Hvs]].
Defined.

(** ** Inputs and targets, position by position *)

Section Shift.

Variable permutation : Z -> list Z.
Hypothesis permutation_spec :
  forall n, 0 <= n -> Permutation (permutation n) (range n).

(** X15: in an item [(x, y)] of a constructed dataset the target is the
    input shifted by one place wherever it is not masked: [y[i]] is [-100]
    for [i < 2*ndigit - 1], and [y[i] = x[i+1]], a digit, for
    [2*ndigit - 1 <= i < 3*ndigit - 1]; only the last target, the units
    digit of the sum, is not in [x]. *)
Theorem target_shift (nd : nat) (s : string) (ds : AdditionDataset)
        (idx : Z) (x y : list Z) :
  (1 <= nd)%nat ->
  AdditionDataset_init permutation nd s = Ok ds ->
  AdditionDataset_getitem ds idx = Ok (x, y) ->
  (forall i, (i < 2 * nd - 1)%nat -> nth_error y i = Some (-100)) /\
  (forall i, (2 * nd - 1 <= i < 3 * nd - 1)%nat ->
     nth_error y i = nth_error x (S i) /\
     exists d, nth_error y i = Some d /\ is_digit d) /\
  (exists v, index (ixes ds) idx = Ok v /\
             nth_error y (3 * nd - 1) = Some (sum_of nd v mod 10)).
Proof.
  intros Hnd Hds Hget.
  assert (Hidx : - AdditionDataset_len ds <= idx < AdditionDataset_len ds).
  { unfold AdditionDataset_getitem in Hget. apply bind_Ok in Hget.
    destruct Hget as [v [Hv _]]. apply index_Ok_valid in Hv. exact Hv. }
  destruct (getitem_init permutation permutation_spec nd s ds idx Hnd Hds Hidx)
    as [v [Hv [_ [_ Hget']]]].
  change (AdditionDataset_getitem ds idx = Ok (x_of nd v, y_of nd v)) in Hget'.
  assert (Hx : x = x_of nd v) by congruence.
  assert (Hy : y = y_of nd v) by congruence.
  subst x y. clear Hget Hget'. unfold x_of, y_of. cbv zeta. fold (sum_of nd v).
  set (A := digits nd (a_of nd v)).
  set (B := digits nd (b_of nd v)).
  set (D := digits nd (sum_of nd v / 10)).
  change (digits (S nd) (sum_of nd v)) with (D ++ [sum_of nd v mod 10]).
  assert (HA : List.length A = nd) by apply length_digits.
  assert (HB : List.length B = nd) by apply length_digits.
  assert (HD : List.length D = nd) by apply length_digits.
  assert (Hok : Forall is_digit D) by apply digits_ok.
  clearbody A B D.
  split; [|split].
  - intros i Hi. rewrite nth_error_app1 by (rewrite repeat_length; lia).
    apply nth_error_repeat. lia.
  - intros i Hi.
    rewrite nth_error_app2 by (rewrite repeat_length; lia).
    rewrite repeat_length, nth_error_app1 by lia.
    rewrite (app_assoc A B D), (nth_error_app2 (A ++ B))
      by (rewrite length_app; lia).
    rewrite length_app, HA, HB.
    replace (S i - (nd + nd))%nat with (i - (2 * nd - 1))%nat by lia.
    split; [reflexivity|].
    destruct (nth_error D (i - (2 * nd - 1))) as [d|] eqn:Hd.
    + exists d. split; [reflexivity|].
      rewrite Forall_forall in Hok. apply Hok. eapply nth_error_In, Hd.
    + apply nth_error_None in Hd. lia.
  - exists v. split; [exact Hv|].
    rewrite nth_error_app2 by (rewrite repeat_length; lia).
    rewrite repeat_length, nth_error_app2 by lia.
    replace (3 * nd - 1 - (2 * nd - 1) - List.length D)%nat with 0%nat by lia.
    reflexivity.
Qed.

End Shift.

Lemma target_shift_witness :
  exists ds x y,
    AdditionDataset_init rev_permutation 1 "train" = Ok ds /\
    AdditionDataset_getitem ds 0 = Ok (x, y) /\
    (forall i, (i < 2 * 1 - 1)%nat -> nth_error y i = Some (-100)) /\
    (forall i, (2 * 1 - 1 <= i < 3 * 1 - 1)%nat ->
       nth_error y i = nth_error x (S i) /\
       exists d, nth_error y i = Some d /\ is_digit d) /\
    (exists v, index (ixes ds) 0 = Ok v /\
               nth_error y (3 * 1 - 1) = Some (sum_of 1 v mod 10)).
Proof.
  assert (H : exists ds x y,
             AdditionDataset_init rev_permutation 1 "train" = Ok ds /\
             AdditionDataset_getitem ds 0 = Ok (x, y)).
  { eexists _, _, _. split; [vm_compute; reflexivity|]. vm_compute. reflexivity. }
  destruct H as [ds [x [y [Hds Hget]]]].
  exists ds, x, y. split; [exact Hds|]. split; [exact Hget|].
  apply (target_shift rev_permutation rev_permutation_spec 1 "train" ds 0 x y);
    [lia | exact Hds | exact Hget].
Defined.

(** The totals the notebook prints: with [batch_size=1024, max_batches=10]
    all 9000 training items are examined, and with [max_batches=-1] all
    1000 test items. *)
Example notebook_examined :
  examined 9000 1024 10 = 9000 /\ examined 1000 1024 (-1) = 1000.
Proof. split; reflexivity. Qed.
